(** * Gen-email: the Groq cover letter generator

    A shallow embedding of [server/cover_letter_generator.py] and the
    properties of its five methods.

    The class is glue around four collaborators: the text splitter, the FAISS
    vector store (with its embedding model), the file system and the Groq chat
    client.  Every call the methods make to a collaborator is a constructor of
    [call]; a method is a program of the free monad [prog] over those calls,
    and [run] interprets a program against any behaviour of the collaborators
    ([handler]), recording what was called, what came back and what was
    printed.  Exceptions are values of [exn]: they stand for instances of
    Python's [Exception], the class the two [except Exception] clauses of the
    source name.  Python floats are idealised as rationals. *)

From Stdlib Require Import Ascii QArith Qround.
From stdpp Require Import base option list sorting strings gmap.

Close Scope Q_scope.

(** ** Python strings *)

Module Py.

(** [c.isspace()] on the ASCII range. *)
Definition isspace (c : ascii) : bool :=
  match c with
  | "009" | "010" | "011" | "012" | "013"
  | "028" | "029" | "030" | "031" | " " => true
  | _ => false
  end%char.

Fixpoint lstrip (s : string) : string :=
  match s with
  | String c s' => if isspace c then lstrip s' else s
  | EmptyString => EmptyString
  end.

Fixpoint rstrip (s : string) : string :=
  match s with
  | String c s' =>
      match rstrip s' with
      | EmptyString => if isspace c then EmptyString else String c EmptyString
      | r => String c r
      end
  | EmptyString => EmptyString
  end.

(** [s.strip()] *)
Definition strip (s : string) : string := rstrip (lstrip s).

(** [sep.join(l)] *)
Definition join (sep : string) (l : list string) : string :=
  String.concat sep l.

Definition startswith (s p : string) : bool := String.prefix p s.

Fixpoint endswith_char (s : string) (c : ascii) : bool :=
  match s with
  | EmptyString => false
  | String a EmptyString => bool_decide (a = c)
  | String _ s' => endswith_char s' c
  end.

(** [os.path.join(a, b)] of [posixpath], for two components. *)
Definition os_path_join (a b : string) : string :=
  if startswith b "/" then b
  else if bool_decide (a = "") || endswith_char a "/"%char then a +:+ b
  else a +:+ "/" +:+ b.

(** [round(x, 2)]: the nearest multiple of 1/100, ties to the even one. *)
Definition round_half_even (x : Q) : Z :=
  let n := Qnum x in
  let d := Z.pos (Qden x) in
  let f := (n / d)%Z in
  let r := (n mod d)%Z in
  match (2 * r ?= d)%Z with
  | Lt => f
  | Gt => (f + 1)%Z
  | Eq => if Z.even f then f else (f + 1)%Z
  end.

Definition round2 (x : Q) : Q :=
  Qmake (round_half_even (x * 100)%Q) 100.

End Py.

(** ** The Chunker *)

Module Chunker.

(** The source takes its Chunker from the text-splitting dependency
    ([RecursiveCharacterTextSplitter], not under src/); the definitions of
    this module follow section 4.1 of the specification. *)
Section splitter.
Variables (chunk_size chunk_overlap : nat).

(** [list(text)] *)
Fixpoint chars (text : string) : list string :=
  match text with
  | EmptyString => []
  | String c text' => String c EmptyString :: chars text'
  end.

(** Does [separator] occur in [text]? *)
Fixpoint contains (separator text : string) : bool :=
  String.prefix separator text ||
  match text with
  | EmptyString => false
  | String _ text' => contains separator text'
  end.

(** The text up to the first occurrence of [separator], then the pieces
    that start at each later occurrence; [skip] characters of a matched
    separator are still to be passed over. *)
Fixpoint split_keep (separator : string) (skip : nat) (text : string)
  : string * list string :=
  match text with
  | EmptyString => (EmptyString, [])
  | String c text' =>
      match skip with
      | S n =>
          let '(p, ps) := split_keep separator n text' in (String c p, ps)
      | O =>
          if String.prefix separator text then
            let '(p, ps) :=
              split_keep separator (String.length separator - 1) text' in
            (EmptyString, String c p :: ps)
          else
            let '(p, ps) := split_keep separator 0 text' in
            (String c p, ps)
      end
  end.

Definition nonempty (s : string) : bool := negb (bool_decide (s = "")).

Definition split_with (separator text : string) : list string :=
  filter (λ s, nonempty s = true)
    (if bool_decide (separator = "") then chars text
     else let '(p, ps) := split_keep separator 0 text in p :: ps).

Definition total_length (docs : list string) : nat :=
  foldr (λ d n, String.length d + n) 0 docs.

Definition join_docs (docs : list string) : option string :=
  let text := Py.strip (Py.join "" docs) in
  if bool_decide (text = "") then None else Some text.

(** Drop pieces from the front of the current chunk until what is left
    fits the overlap and leaves room for a piece of [len] characters. *)
Fixpoint shrink (len : nat) (current_doc : list string) (total : nat)
  : list string * nat :=
  match current_doc with
  | [] => ([], total)
  | d0 :: rest =>
      if (chunk_overlap <? total)
         || ((chunk_size <? total + len) && (0 <? total))
      then shrink len rest (total - String.length d0)
      else (current_doc, total)
  end.

Definition merge_step (st : list string * list string * nat) (d : string)
  : list string * list string * nat :=
  let '(docs, current_doc, total) := st in
  let len := String.length d in
  let '(docs, current_doc, total) :=
    if chunk_size <? total + len then
      match current_doc with
      | [] => (docs, current_doc, total)
      | _ :: _ =>
          let '(current_doc', total') := shrink len current_doc total in
          (docs ++ option_list (join_docs current_doc), current_doc', total')
      end
    else (docs, current_doc, total) in
  (docs, current_doc ++ [d], total + len).

(** Modelled from the spec: the merging half of the Chunker (the text
    splitter is not under src/).  Short pieces are joined into chunks of at
    most [chunk_size] characters; when the next piece does not fit, the
    current chunk is closed and its tail of at most [chunk_overlap] characters
    starts the next one.  Chunks are stripped of surrounding white space and
    empty ones are dropped. *)
Definition merge_splits (splits : list string) : list string :=
  let '(docs, current_doc, _) := fold_left merge_step splits ([], [], 0) in
  docs ++ option_list (join_docs current_doc).

Definition process_step (recurse : option (string → list string))
    (st : list string * list string) (s : string)
  : list string * list string :=
  let '(final_chunks, good_splits) := st in
  if String.length s <? chunk_size then (final_chunks, good_splits ++ [s])
  else
    (final_chunks ++ merge_splits good_splits
       ++ match recurse with
          | None => [s]
          | Some split_more => split_more s
          end,
     []).

Definition process (recurse : option (string → list string))
    (splits : list string) : list string :=
  let '(final_chunks, good_splits) :=
    fold_left (process_step recurse) splits ([], []) in
  final_chunks ++ merge_splits good_splits.

(** Modelled from the spec: the splitting half of the Chunker (the text
    splitter is not under src/).  The text is split at the first separator of
    the list that occurs in it (paragraph break, then line break, then space,
    then single characters), each separator staying at the head of the piece
    that follows it; pieces that are still too long are split with the
    remaining separators, the others are merged. *)
Fixpoint split_text_rec (separators : list string) (text : string)
  : list string :=
  match separators with
  | [] => []
  | separator :: rest =>
      if bool_decide (separator = "") then
        process None (split_with separator text)
      else
        match rest with
        | [] => process None (split_with separator text)
        | _ :: _ =>
            if contains separator text then
              process (Some (split_text_rec rest))
                (split_with separator text)
            else split_text_rec rest text
        end
  end.

End splitter.

Definition nl : string := String "010"%char EmptyString.

(** Modelled from the spec: the Chunker of section 4.1,
    [split(text, max_size, overlap)], as the source configures it through
    [RecursiveCharacterTextSplitter(chunk_size, chunk_overlap, separators)];
    the splitter itself is not under src/. *)
Definition RecursiveCharacterTextSplitter
    (chunk_size chunk_overlap : nat) (separators : list string)
    (text : string) : list string :=
  split_text_rec chunk_size chunk_overlap separators text.

(** The state of the merge loop: the chunks made so far are bounded, and
    [total] is the length of the current chunk, which fits. *)
Definition merge_inv (chunk_size : nat)
    (st : list string * list string * nat) : Prop :=
  let '(docs, current_doc, total) := st in
  Forall (λ chunk, String.length chunk ≤ chunk_size) docs ∧
  total = total_length current_doc ∧
  total ≤ chunk_size.

(** The state of the loop over the pieces of a split. *)
Definition process_inv (chunk_size : nat)
    (st : list string * list string) : Prop :=
  let '(final_chunks, good_splits) := st in
  Forall (λ chunk, String.length chunk ≤ chunk_size) final_chunks ∧
  Forall (λ chunk, String.length chunk ≤ chunk_size) good_splits.

(** What the loop does with a piece that is not short: it is a chunk as it
    is, or it is split further. *)
Definition long_piece_ok (chunk_size : nat)
    (recurse : option (string → list string)) (s : string) : Prop :=
  chunk_size ≤ String.length s →
  match recurse with
  | None => String.length s ≤ chunk_size
  | Some split_more =>
      Forall (λ chunk, String.length chunk ≤ chunk_size) (split_more s)
  end.

End Chunker.

(** ** Values exchanged with the collaborators *)

(** An instance of Python's [Exception]; [exc_str e] is [str(e)]. *)
Record exn : Type := Exception { exc_type : string; exc_str : string }.

Global Instance exn_eq_dec : EqDecision exn.
Proof. solve_decision. Defined.

Definition IndexError (msg : string) : exn := Exception "IndexError" msg.
Definition KeyError (key : string) : exn :=
  Exception "KeyError" ("'" +:+ key +:+ "'").

(** [Document(page_content=...)] *)
Record Document : Type := mkDocument { page_content : string }.

Record Message : Type := mkMessage { role : string; content : string }.

(** The keyword arguments of [client.chat.completions.create]. *)
Record ChatRequest : Type := mkChatRequest {
  messages : list Message;
  model : string;
  temperature : Q;
  max_tokens : Z;
  top_p : Z;
  stream : bool
}.

Record ChatCompletionMessage : Type :=
  mkChatCompletionMessage { message_content : option string }.
Record Choice : Type := mkChoice { message : ChatCompletionMessage }.
Record ChatCompletion : Type := mkChatCompletion { choices : list Choice }.

(** ** Programs over the collaborators *)

Section Programs.
Context {FAISS : Type}.

(** The calls the class makes, indexed by the type of what they return. *)
Inductive call : Type → Type :=
| os_path_exists (path : string) : call bool
| os_makedirs (path : string) : call unit
| FAISS_load_local (path : string) : call FAISS
| FAISS_from_documents (documents : list Document) : call FAISS
| save_local (vector_store : FAISS) (path : string) : call unit
| similarity_search (vector_store : FAISS) (query : string) (k : Z)
    : call (list Document)
| similarity_search_with_score
    (vector_store : FAISS) (query : string) (k : Z)
    : call (list (Document * Q))
| chat_completions_create (request : ChatRequest) : call ChatCompletion.

(** A program returns, raises, calls a collaborator (and goes on with what
    the call returned or raised) or prints a line. *)
Inductive prog (A : Type) : Type :=
| Ret (a : A)
| Raise (e : exn)
| Do {X : Type} (c : call X) (k : exn + X → prog A)
| PrintLine (line : string) (k : prog A).

Global Arguments Ret {A} a.
Global Arguments Raise {A} e.
Global Arguments Do {A X} c k.
Global Arguments PrintLine {A} line k.

Fixpoint bind {A B : Type} (p : prog A) (f : A → prog B) : prog B :=
  match p with
  | Ret a => f a
  | Raise e => Raise e
  | Do c k => Do c (λ r, bind (k r) f)
  | PrintLine line k => PrintLine line (bind k f)
  end.

Global Instance prog_ret : MRet prog := @Ret.
Global Instance prog_bind : MBind prog := λ A B f p, bind p f.

(** A collaborator call whose exception, if any, is raised on. *)
Definition perform {X : Type} (c : call X) : prog X :=
  Do c (λ r, match r with inl e => Raise e | inr x => Ret x end).

Definition print (line : string) : prog unit := PrintLine line (Ret tt).

(** [try: body  except Exception as e: handler e] *)
Fixpoint try_except {A : Type} (body : prog A) (handler : exn → prog A)
  : prog A :=
  match body with
  | Ret a => Ret a
  | Raise e => handler e
  | Do c k => Do c (λ r, try_except (k r) handler)
  | PrintLine line k => PrintLine line (try_except k handler)
  end.

(** [for x in l: acc = body x acc] *)
Fixpoint for_each {A S : Type} (l : list A) (body : A → S → prog S) (acc : S)
  : prog S :=
  match l with
  | [] => Ret acc
  | x :: l' => acc' ← body x acc; for_each l' body acc'
  end.

(** [d[key]] *)
Definition getitem {V : Type} (d : gmap string V) (key : string) : prog V :=
  match d !! key with
  | Some v => Ret v
  | None => Raise (KeyError key)
  end.

(** [l[0]] *)
Definition first {A : Type} (l : list A) : prog A :=
  match l with
  | x :: _ => Ret x
  | [] => Raise (IndexError "list index out of range")
  end.

(** *** Running a program *)

(** What a run leaves behind, in order: each call with its result, and each
    printed line. *)
Inductive entry : Type :=
| Called {X : Type} (c : call X) (r : exn + X)
| Printed (line : string).

(** The collaborators: how each call answers in a world [W]. *)
Definition handler (W : Type) : Type :=
  ∀ X : Type, call X → W → (exn + X) * W.

Record result (W A : Type) : Type := mkResult {
  outcome : exn + A;
  world : W;
  trace : list entry
}.
Global Arguments mkResult {W A} outcome world trace.
Global Arguments outcome {W A} r.
Global Arguments world {W A} r.
Global Arguments trace {W A} r.

Definition after {W A : Type} (e : entry) (r : result W A) : result W A :=
  mkResult (outcome r) (world r) (e :: trace r).

Fixpoint run {W A : Type} (h : handler W) (p : prog A) (w : W)
  : result W A :=
  match p with
  | Ret a => mkResult (inr a) w []
  | Raise e => mkResult (inl e) w []
  | Do c k =>
      let '(r, w') := h _ c w in after (Called c r) (run h (k r) w')
  | PrintLine line k => after (Printed line) (run h k w)
  end.

(** The exception a trace entry raised, if it is a call that raised. *)
Definition raised (e : entry) : option exn :=
  match e with
  | Called _ (inl ex) => Some ex
  | _ => None
  end.

End Programs.

Global Arguments call FAISS : clear implicits.
Global Arguments prog FAISS A : clear implicits.
Global Arguments entry FAISS : clear implicits.
Global Arguments handler FAISS W : clear implicits.
Global Arguments result FAISS W A : clear implicits.

(** ** The class *)

Definition nl : string := Chunker.nl.
Definition dq : string := String "034"%char EmptyString.
Definition lines (l : list string) : string := Py.join nl l.

(** What the methods read of [self]; [self.client] and [self.embeddings] are
    the collaborators behind [chat_completions_create] and the FAISS calls. *)
Record GroqCoverLetterGenerator : Type := mkGenerator {
  vector_store_path : string;
  text_splitter : string → list string
}.

Definition __init__ (groq_api_key : string) (vector_store_path : option string)
  : GroqCoverLetterGenerator :=
  {| vector_store_path := default "vector_indices" vector_store_path;
     text_splitter :=
       Chunker.RecursiveCharacterTextSplitter 500 50 [nl +:+ nl; nl; " "; ""] |}.

Definition queries : gmap string string :=
  list_to_map
    [("technical_skills",
      "What are the candidate's technical skills, programming languages, and tools?");
     ("soft_skills",
      "What are the candidate's soft skills, leadership abilities, and interpersonal skills?");
     ("experience",
      "What are the candidate's most relevant work experiences, projects, and achievements?");
     ("education",
      "What is the candidate's educational background, degrees, and certifications?");
     ("job_requirements",
      "What are the key technical requirements and qualifications for this position?");
     ("job_responsibilities",
      "What are the main responsibilities and duties of this role?")].

Definition system_content : string :=
  lines
    ["You are a professional cover letter writer. ";
     "                    Create compelling, personalized cover letters that precisely match ";
     "                    candidate qualifications with job requirements.";
     "                    Directly start writing letter from subject, no need to provide any "
       +:+ "additional labels like " +:+ dq
       +:+ "Here is a professional cover letter based on the matched information:" +:+ dq
       +:+ " or " +:+ dq +:+ "Here is a professional cover letter:" +:+ dq
       +:+ " and other.";
     "                    "].

Definition user_content
    (technical_skills soft_skills experience education : string)
    (job_requirements job_responsibilities hr_email : string) : string :=
  lines
    ["";
     "                    Create a professional cover letter based on the following matched information:";
     "                    ";
     "                    Technical Skills:";
     "                    " +:+ technical_skills;
     "                    ";
     "                    Soft Skills:";
     "                    " +:+ soft_skills;
     "                    ";
     "                    Relevant Experience:";
     "                    " +:+ experience;
     "                    ";
     "                    Education:";
     "                    " +:+ education;
     "                    ";
     "                    Job Requirements:";
     "                    " +:+ job_requirements;
     "                    ";
     "                    Job Responsibilities:";
     "                    " +:+ job_responsibilities;
     "                    ";
     "                    HR Email: " +:+ hr_email;
     "                    ";
     "                    Requirements:";
     "                    1. Start with a compelling introduction showing understanding of the role";
     "                    2. Match specific skills and experiences to job requirements";
     "                    3. Use concrete examples from the experience section";
     "                    4. Maintain professional tone while showing enthusiasm";
     "                    5. Format as proper email with subject line";
     "                    6. Include strong call to action";
     "                    7. Keep length between 250-300 words";
     "                    8. End with professional closing";
     "                    9. Use proper grammar and punctuation";
     "                    10. Avoid cliches and generic statements";
     "                    11. Avoid repeating information from resume";
     "                    12. Avoid negative language or criticism";
     "                    13. Make sure the email is humanised the email generated should be humanised";
     "                    "].

Section Methods.
Context {FAISS : Type}.
Implicit Types self : GroqCoverLetterGenerator.

(** Lines 48-57: build the vector store from the text and save it. *)
Definition create_vector_store self (text store_path : string) : prog FAISS FAISS :=
  let chunks := text_splitter self text in
  let documents := mkDocument <$> chunks in
  vector_store ← perform (FAISS_from_documents documents);
  perform (os_makedirs (vector_store_path self));;
  perform (save_local vector_store store_path);;
  mret vector_store.

Definition load_or_create_vector_store self (text store_name : string)
  : prog FAISS FAISS :=
  let store_path := Py.os_path_join (vector_store_path self) store_name in
  found ← perform (os_path_exists store_path);
  loaded ←
    (if found : bool then
       try_except
         (vector_store ← perform (FAISS_load_local store_path);
          mret (Some vector_store))
         (λ e, print ("Error loading vector store: " +:+ exc_str e);;
               mret None)
     else mret None);
  match loaded with
  | Some vector_store => mret vector_store
  | None => create_vector_store self text store_path
  end.

(** [k] is the keyword argument with default 3. *)
Definition get_relevant_context self
    (vector_store : FAISS) (query : string) (k : option Z)
  : prog FAISS string :=
  documents ← perform (similarity_search vector_store query (default 3%Z k));
  mret (Py.join nl (page_content <$> documents)).

Definition extract_key_information self (resume_store jd_store : FAISS)
  : prog FAISS (gmap string string) :=
  info ←
    for_each ["technical_skills"; "soft_skills"; "experience"; "education"]
      (λ key info,
         query ← getitem queries key;
         context ← get_relevant_context self resume_store query None;
         mret (<[key := context]> info))
      (∅ : gmap string string);
  info ←
    for_each ["job_requirements"; "job_responsibilities"]
      (λ key info,
         query ← getitem queries key;
         context ← get_relevant_context self jd_store query None;
         mret (<[key := context]> info))
      info;
  mret info.

(** The body of the [try] of [generate_cover_letter]. *)
Definition generate_cover_letter_body self
    (resume_store jd_store : FAISS) (hr_email : string)
  : prog FAISS (option string) :=
  info ← extract_key_information self resume_store jd_store;
  technical_skills ← getitem info "technical_skills";
  soft_skills ← getitem info "soft_skills";
  experience ← getitem info "experience";
  education ← getitem info "education";
  job_requirements ← getitem info "job_requirements";
  job_responsibilities ← getitem info "job_responsibilities";
  let messages :=
    [mkMessage "system" system_content;
     mkMessage "user"
       (user_content technical_skills soft_skills experience education
          job_requirements job_responsibilities hr_email)] in
  completion ←
    perform (chat_completions_create
               {| messages := messages;
                  model := "llama3-70b-8192";
                  temperature := (7 # 10)%Q;
                  max_tokens := 1000;
                  top_p := 1;
                  stream := false |});
  choice ← first (choices completion);
  mret (message_content (message choice)).

Definition generate_cover_letter self
    (resume_store jd_store : FAISS) (hr_email : string)
  : prog FAISS (option string) :=
  try_except (generate_cover_letter_body self resume_store jd_store hr_email)
    (λ e, print ("Error generating cover letter: " +:+ exc_str e);;
          mret None).

Definition calculate_match_scores self (resume_store jd_store : FAISS)
  : prog FAISS (gmap string Q) :=
  requirements ←
    get_relevant_context self jd_store
      "What are the specific requirements and qualifications?" (Some 5%Z);
  let req_chunks := text_splitter self requirements in
  for_each req_chunks
    (λ req scores,
       matches ← perform (similarity_search_with_score resume_store req 1);
       match matches with
       | m :: _ =>
           let score := ((1 - m.2) * 100)%Q in
           mret (<[Py.strip req := Py.round2 score]> scores)
       | [] => mret scores
       end)
    (∅ : gmap string Q).

End Methods.

(** ** What the claims speak of *)

(** The six topic labels of the extraction bundle. *)
Definition topic_labels : gset string :=
  {[ "technical_skills"; "soft_skills"; "experience"; "education";
     "job_requirements"; "job_responsibilities" ]}.

(** The percentage of a distance: (1 - distance) * 100, to two decimals. *)
Definition match_score (distance : Q) : Q :=
  Py.round2 ((1 - distance) * 100)%Q.

(** The scores of a list of requirement statements, each with the matches its
    search returned: later statements overwrite earlier ones with the same
    trimmed text, and a statement with no match adds nothing. *)
Definition record_score (scores : gmap string Q)
    (found : string * list (Document * Q)) : gmap string Q :=
  match found.2 with
  | m :: _ => <[Py.strip found.1 := match_score m.2]> scores
  | [] => scores
  end.

Definition scores_of (found : list (string * list (Document * Q)))
  : gmap string Q :=
  fold_left record_score found ∅.

Section Traces.
Context {FAISS : Type}.

Definition is_search (e : entry FAISS) : bool :=
  match e with
  | Called (similarity_search _ _ _) _ => true
  | Called (similarity_search_with_score _ _ _) _ => true
  | _ => false
  end.

(** A call that changes the storage directory or builds or loads an index. *)
Definition touches_index (e : entry FAISS) : bool :=
  match e with
  | Called (os_makedirs _) _ => true
  | Called (save_local _ _) _ => true
  | Called (FAISS_from_documents _) _ => true
  | Called (FAISS_load_local _) _ => true
  | _ => false
  end.

Definition writes_storage (e : entry FAISS) : bool :=
  match e with
  | Called (os_makedirs _) _ => true
  | Called (save_local _ _) _ => true
  | _ => false
  end.

(** The chunks a call hands to a collaborator: the documents an index is
    built from, and the requirement statement a scored search looks up. *)
Definition chunks_of (e : entry FAISS) : list string :=
  match e with
  | Called (FAISS_from_documents documents) _ => page_content <$> documents
  | Called (similarity_search_with_score _ query _) _ => [query]
  | _ => []
  end.

(** Runs in sequence: the second starts in the world the first left, unless
    the first raised. *)
Definition and_then {W A B : Type} (r : result FAISS W A)
    (k : A → W → result FAISS W B) : result FAISS W B :=
  match outcome r with
  | inl e => mkResult (inl e) (world r) (trace r)
  | inr a =>
      let r' := k a (world r) in
      mkResult (outcome r') (world r') (trace r ++ trace r')
  end.

(** The second run starts only if the first raised. *)
Definition or_else {W A : Type} (r : result FAISS W A)
    (k : exn → W → result FAISS W A) : result FAISS W A :=
  match outcome r with
  | inl e =>
      let r' := k e (world r) in
      mkResult (outcome r') (world r') (trace r ++ trace r')
  | inr _ => r
  end.

(** A program lets exceptions through: when a call raises, the program stops
    there and raises the same exception. *)
Definition propagates {W A : Type} (h : handler FAISS W) (p : prog FAISS A)
  : Prop :=
  ∀ w e,
    Some e ∈ raised <$> trace (run h p w) →
    outcome (run h p w) = inl e ∧ last (trace (run h p w)) ≫= raised = Some e.

(** The context string of retrieved documents. *)
Definition context_of (documents : list Document) : string :=
  Py.join nl (page_content <$> documents).

(** Searches answer, whatever the index, the query and the world. *)
Definition searches_answer {W : Type} (h : handler FAISS W) : Prop :=
  (∀ vs q k w, ∃ docs, (h _ (similarity_search vs q k) w).1 = inr docs) ∧
  (∀ vs q k w,
     ∃ ms, (h _ (similarity_search_with_score vs q k) w).1 = inr ms).

(** Every distance a scored search reports lies in [0, 1]. *)
Definition bounded_metric {W : Type} (h : handler FAISS W) : Prop :=
  ∀ vs q k w ms,
    (h _ (similarity_search_with_score vs q k) w).1 = inr ms →
    Forall (λ m : Document * Q, (0 <= m.2 <= 1)%Q) ms.

(** Searches leave the world as it is. *)
Definition searches_read_only {W : Type} (h : handler FAISS W) : Prop :=
  (∀ vs q k w, (h _ (similarity_search vs q k) w).2 = w) ∧
  (∀ vs q k w, (h _ (similarity_search_with_score vs q k) w).2 = w).

End Traces.

(** ** Reference collaborators *)

Module Reference.

(** Modelled from the spec: the collaborators of section 6, which the source
    takes from its dependencies (FAISS, the embedding model, the Groq client,
    not under src/) and from the operating system.  An index is the list of
    its chunks; a search ranks them by the distance between the embeddings of
    query and chunk, nearest first, and returns the first [k]; an index is
    saved under a path and loaded from it, and loading data that is not a
    saved index fails. *)
Definition Index : Type := list Document.

Inductive file : Type :=
| Saved (index : Index)
| Corrupt.

Record World : Type := mkWorld {
  dirs : gset string;
  files : gmap string file
}.

(** [a] is at least as similar to the query as [b]. *)
Definition nearer (a b : Document * Q) : Prop := (a.2 <= b.2)%Q.

Section collaborators.
Variable distance : string → string → Q.
Variable chat : ChatRequest → exn + ChatCompletion.

Fixpoint insert_ranked (m : Document * Q) (l : list (Document * Q))
  : list (Document * Q) :=
  match l with
  | [] => [m]
  | m' :: l' =>
      if Qle_bool m.2 m'.2 then m :: l else m' :: insert_ranked m l'
  end.

(** Each chunk with its distance to the query. *)
Definition scored (index : Index) (query : string) : list (Document * Q) :=
  (λ d, (d, distance query (page_content d))) <$> index.

Definition ranked (index : Index) (query : string) : list (Document * Q) :=
  foldr insert_ranked [] (scored index query).

(** Modelled from the spec: [search(index, query_vector, k)] of section 6,
    the ranked (chunk, distance) pairs of the [k] nearest chunks; the vector
    index is not under src/. *)
Definition search_with_score (index : Index) (query : string) (k : Z)
  : list (Document * Q) :=
  take (Z.to_nat k) (ranked index query).

Definition search (index : Index) (query : string) (k : Z) : list Document :=
  fst <$> search_with_score index query k.

Definition load (w : World) (path : string) : exn + Index :=
  match files w !! path with
  | Some (Saved index) => inr index
  | Some Corrupt =>
      inl (Exception "RuntimeError" "could not read the index")
  | None => inl (Exception "RuntimeError" "could not open the index")
  end.

(** Modelled from the spec: how the collaborators of section 6 (vector index,
    file system and text generation, none of them under src/) answer the calls
    of the class. *)
Definition collaborators : handler Index World :=
  λ X c,
    match c in call _ X return World → (exn + X) * World with
    | os_path_exists path =>
        λ w, (inr (bool_decide (is_Some (files w !! path))
                   || bool_decide (path ∈ dirs w)), w)
    | os_makedirs path =>
        λ w, (inr tt, mkWorld ({[ path ]} ∪ dirs w) (files w))
    | FAISS_load_local path => λ w, (load w path, w)
    | FAISS_from_documents documents => λ w, (inr documents, w)
    | save_local index path =>
        λ w, (inr tt, mkWorld (dirs w) (<[path := Saved index]> (files w)))
    | similarity_search index query k => λ w, (inr (search index query k), w)
    | similarity_search_with_score index query k =>
        λ w, (inr (search_with_score index query k), w)
    | chat_completions_create request => λ w, (chat request, w)
    end.

End collaborators.

(** A cosine-like distance, in [0, 1]. *)
Definition unit_distance (query chunk : string) : Q :=
  if bool_decide (query = chunk) then 0%Q else (1 # 2)%Q.

(** An unbounded distance, as a squared L2 norm is. *)
Definition raw_distance (query chunk : string) : Q :=
  if bool_decide (query = chunk) then 0%Q else 2%Q.

Definition reply (text : string) (request : ChatRequest)
  : exn + ChatCompletion :=
  inr (mkChatCompletion [mkChoice (mkChatCompletionMessage (Some text))]).

Definition unreachable (request : ChatRequest) : exn + ChatCompletion :=
  inl (Exception "APIConnectionError" "Connection error.").

Definition empty_world : World := mkWorld ∅ ∅.

(** The same collaborators when every search for [poison] raises [ex], as
    happens when the embedding model cannot encode the query. *)
Definition failing_on (poison : string) (ex : exn)
    (distance : string → string → Q) (chat : ChatRequest → exn + ChatCompletion)
  : handler Index World :=
  λ X c,
    match c in call _ X return World → (exn + X) * World with
    | similarity_search index query k =>
        λ w, if bool_decide (query = poison) then (inl ex, w)
             else (inr (search distance index query k), w)
    | similarity_search_with_score index query k =>
        λ w, if bool_decide (query = poison) then (inl ex, w)
             else (inr (search_with_score distance index query k), w)
    | c' => collaborators distance chat _ c'
    end.

Definition generator : GroqCoverLetterGenerator := __init__ "gsk_key" None.

(** A storage directory whose resume index cannot be read. *)
Definition corrupt_world : World :=
  mkWorld {[ "vector_indices" ]} {[ "vector_indices/resume" := Corrupt ]}.

Definition resume_index : Index :=
  [mkDocument "Python, Go and Kubernetes";
   mkDocument "5 years of experience with distributed systems and Go"].

Definition jd_index : Index :=
  [mkDocument "experience with distributed systems";
   mkDocument "Python, Go and Kubernetes"].

End Reference.

(** ** What the further properties speak of *)

(** The keyword arguments [generate_cover_letter] calls the generation
    service with, for an extraction bundle and an HR email (lines 109-169). *)
Definition cover_letter_request (info : gmap string string)
    (hr_email : string) : ChatRequest :=
  {| messages :=
       [mkMessage "system" system_content;
        mkMessage "user"
          (user_content (info !!! "technical_skills") (info !!! "soft_skills")
             (info !!! "experience") (info !!! "education")
             (info !!! "job_requirements") (info !!! "job_responsibilities")
             hr_email)];
     model := "llama3-70b-8192";
     temperature := (7 # 10)%Q;
     max_tokens := 1000;
     top_p := 1;
     stream := false |}.

Section Entries.
Context {FAISS : Type}.

Definition is_chat (e : entry FAISS) : bool :=
  match e with
  | Called (chat_completions_create _) _ => true
  | _ => false
  end.

Definition is_printed (e : entry FAISS) : bool :=
  match e with
  | Printed _ => true
  | _ => false
  end.

End Entries.

(** *** More reference collaborators *)

(** A generation service whose completion has no choice. *)
Definition no_choices (request : ChatRequest) : exn + ChatCompletion :=
  inr (mkChatCompletion []).

(** A generation service whose first choice has no content. *)
Definition no_content (request : ChatRequest) : exn + ChatCompletion :=
  inr (mkChatCompletion [mkChoice (mkChatCompletionMessage None)]).

(** The reference collaborators when an index cannot be built from no
    document, as happens when there is no embedding to take the dimension
    from. *)
Definition refuses_empty
    (distance : string → string → Q) (chat : ChatRequest → exn + ChatCompletion)
  : handler Reference.Index Reference.World :=
  λ X c,
    match c in call _ X return Reference.World → (exn + X) * Reference.World
    with
    | FAISS_from_documents documents =>
        λ w, match documents with
             | [] => (inl (IndexError "list index out of range"), w)
             | _ :: _ => (inr documents, w)
             end
    | c' => Reference.collaborators distance chat _ c'
    end.

(** * Properties *)

(** ** Running programs *)

Section RunFacts.
Context {FAISS W : Type} (h : handler FAISS W).
Implicit Types w : W.

Lemma result_eta {A} (r : result FAISS W A) :
  r = mkResult (outcome r) (world r) (trace r).
Proof. by destruct r. Qed.

Lemma run_bind {A B} (p : prog FAISS A) (f : A → prog FAISS B) w :
  run h (p ≫= f) w = and_then (run h p w) (λ a w', run h (f a) w').
Proof.
  unfold mbind, prog_bind. revert w.
  induction p as [a|e|X c k IH|line k IH]; intros w; simpl.
  - unfold and_then; simpl. apply result_eta.
  - done.
  - destruct (h X c w) as [r w']. rewrite IH.
    unfold and_then, after; simpl. by destruct (outcome (run h (k r) w')).
  - rewrite IH. unfold and_then, after; simpl.
    by destruct (outcome (run h k w)).
Qed.

Lemma run_try_except {A} (p : prog FAISS A) (hd : exn → prog FAISS A) w :
  run h (try_except p hd) w = or_else (run h p w) (λ e w', run h (hd e) w').
Proof.
  revert w. induction p as [a|e|X c k IH|line k IH]; intros w; simpl.
  - done.
  - unfold or_else; simpl. apply result_eta.
  - destruct (h X c w) as [r w']. rewrite IH.
    unfold or_else, after; simpl.
    destruct (outcome (run h (k r) w')) eqn:E; simpl; [done|by rewrite E].
  - rewrite IH. unfold or_else, after; simpl.
    destruct (outcome (run h k w)) eqn:E; simpl; [done|by rewrite E].
Qed.

Lemma run_perform {X} (c : call FAISS X) w :
  run h (perform c) w
  = mkResult (h X c w).1 (h X c w).2 [Called c (h X c w).1].
Proof. simpl. by destruct (h X c w) as [[e|x] w']. Qed.

Lemma run_print (line : string) w :
  run h (print line) w = mkResult (inr tt) w [Printed line].
Proof. done. Qed.

Lemma run_mret {A} (a : A) w : run h (mret a) w = mkResult (inr a) w [].
Proof. done. Qed.

Lemma run_for_each_cons {A S} (x : A) l (body : A → S → prog FAISS S) acc w :
  run h (for_each (x :: l) body acc) w
  = and_then (run h (body x acc) w) (λ acc' w', run h (for_each l body acc') w').
Proof. simpl. apply run_bind. Qed.

(** *** Traces of composed programs *)

Lemma trace_bind {A B} (Q : entry FAISS → Prop)
    (p : prog FAISS A) (f : A → prog FAISS B) w :
  Forall Q (trace (run h p w)) →
  (∀ a w', Forall Q (trace (run h (f a) w'))) →
  Forall Q (trace (run h (p ≫= f) w)).
Proof.
  intros Hp Hf. rewrite run_bind. unfold and_then.
  destruct (outcome (run h p w)); simpl; [done|].
  apply Forall_app; auto.
Qed.

Lemma trace_for_each {A S} (Q : entry FAISS → Prop)
    (l : list A) (body : A → S → prog FAISS S) acc w :
  (∀ x acc' w', Forall Q (trace (run h (body x acc') w'))) →
  Forall Q (trace (run h (for_each l body acc) w)).
Proof.
  intros Hbody. revert acc w.
  induction l as [|x l IH]; intros acc w; simpl; [constructor|].
  apply trace_bind; auto.
Qed.

Lemma trace_try_except {A} (Q : entry FAISS → Prop)
    (p : prog FAISS A) (hd : exn → prog FAISS A) w :
  Forall Q (trace (run h p w)) →
  (∀ e w', Forall Q (trace (run h (hd e) w'))) →
  Forall Q (trace (run h (try_except p hd) w)).
Proof.
  intros Hp Hd. rewrite run_try_except. unfold or_else.
  destruct (outcome (run h p w)); simpl; [|done].
  apply Forall_app; auto.
Qed.

Lemma trace_getitem {V} (Q : entry FAISS → Prop) (d : gmap string V) key w :
  Forall Q (trace (run h (getitem d key) w)).
Proof. unfold getitem. destruct (d !! key); constructor. Qed.

(** *** Worlds of composed programs *)

Lemma world_bind {A B} (I : W → Prop)
    (p : prog FAISS A) (f : A → prog FAISS B) w :
  I (world (run h p w)) →
  (∀ a w', I w' → I (world (run h (f a) w'))) →
  I (world (run h (p ≫= f) w)).
Proof.
  intros Hp Hf. rewrite run_bind. unfold and_then.
  destruct (outcome (run h p w)); simpl; auto.
Qed.

Lemma world_for_each {A S} (I : W → Prop)
    (l : list A) (body : A → S → prog FAISS S) acc w :
  (∀ x acc' w', I w' → I (world (run h (body x acc') w'))) →
  I w → I (world (run h (for_each l body acc) w)).
Proof.
  intros Hbody. revert acc w.
  induction l as [|x l IH]; intros acc w Hw; simpl; [done|].
  apply world_bind; auto.
Qed.

(** *** Programs that let exceptions through *)

Lemma propagates_mret {A} (a : A) : propagates h (mret a : prog FAISS A).
Proof. intros w e. rewrite run_mret. simpl. by intros ?%elem_of_nil. Qed.

Lemma propagates_raise {A} (ex : exn) : propagates h (Raise ex : prog FAISS A).
Proof. intros w e. simpl. by intros ?%elem_of_nil. Qed.

Lemma propagates_perform {X} (c : call FAISS X) : propagates h (perform c).
Proof.
  intros w e. rewrite run_perform. simpl.
  destruct ((h X c w).1) as [ex|x]; simpl.
  - rewrite list_elem_of_singleton. by intros [= ->].
  - rewrite list_elem_of_singleton. by intros [=].
Qed.

Lemma propagates_bind {A B} (p : prog FAISS A) (f : A → prog FAISS B) :
  propagates h p → (∀ a, propagates h (f a)) → propagates h (p ≫= f).
Proof.
  intros Hp Hf w e. rewrite run_bind. unfold and_then.
  destruct (outcome (run h p w)) as [ex|a] eqn:Hout; simpl.
  - intros Hin. destruct (Hp w e Hin) as [Ho Hl]. split; [congruence|done].
  - rewrite fmap_app. intros [Hin|Hin]%elem_of_app.
    + destruct (Hp w e Hin) as [Ho _]. congruence.
    + destruct (Hf a (world (run h p w)) e Hin) as [Ho Hl]. split; [done|].
      destruct (trace (run h (f a) (world (run h p w)))) as [|en t] eqn:Ht.
      * by apply elem_of_nil in Hin.
      * by rewrite last_app_cons.
Qed.

Lemma propagates_for_each {A S}
    (l : list A) (body : A → S → prog FAISS S) acc :
  (∀ x acc', propagates h (body x acc')) →
  propagates h (for_each l body acc).
Proof.
  intros Hbody. revert acc.
  induction l as [|x l IH]; intros acc; simpl.
  - apply propagates_mret.
  - apply propagates_bind; auto.
Qed.

Lemma propagates_getitem {V} (d : gmap string V) key :
  propagates h (getitem d key).
Proof.
  unfold getitem. destruct (d !! key).
  - apply propagates_mret.
  - apply propagates_raise.
Qed.

Lemma propagates_first {A} (l : list A) : propagates h (first l).
Proof.
  destruct l; simpl.
  - apply propagates_raise.
  - apply propagates_mret.
Qed.

End RunFacts.

(** ** Exceptions: which methods let them through *)

Section Exceptions.
Context {FAISS W : Type} (h : handler FAISS W).
Implicit Types (self : GroqCoverLetterGenerator) (w : W).

Create HintDb propagation discriminated.
#[local] Hint Resolve propagates_mret propagates_raise propagates_perform
  propagates_getitem propagates_first : propagation.
#[local] Hint Extern 2 (propagates _ (_ ≫= _)) =>
  apply propagates_bind; [|intros ?] : propagation.
#[local] Hint Extern 2 (propagates _ (for_each _ _ _)) =>
  apply propagates_for_each; intros ? ? : propagation.

Lemma propagates_get_relevant_context self (vs : FAISS) q k :
  propagates h (get_relevant_context self vs q k).
Proof. unfold get_relevant_context. auto with propagation. Qed.

#[local] Hint Resolve propagates_get_relevant_context : propagation.

Lemma propagates_extract_key_information self (r j : FAISS) :
  propagates h (extract_key_information self r j).
Proof. unfold extract_key_information. auto 7 with propagation. Qed.

Lemma propagates_calculate_match_scores self (r j : FAISS) :
  propagates h (calculate_match_scores self r j).
Proof.
  unfold calculate_match_scores.
  apply propagates_bind; [auto with propagation|]. intros requirements.
  apply propagates_for_each. intros req scores.
  apply propagates_bind; [auto with propagation|].
  intros [|m ms]; auto with propagation.
Qed.

#[local] Hint Resolve propagates_extract_key_information : propagation.

Lemma propagates_generate_cover_letter_body self (r j : FAISS) hr_email :
  propagates h (generate_cover_letter_body self r j hr_email).
Proof. unfold generate_cover_letter_body. auto 12 with propagation. Qed.

(** How [generate_cover_letter] runs, from how the body of its [try] runs. *)
Lemma run_generate_cover_letter self (r j : FAISS) hr_email w :
  run h (generate_cover_letter self r j hr_email) w
  = or_else (run h (generate_cover_letter_body self r j hr_email) w)
      (λ e w',
         mkResult (inr None) w'
           [Printed ("Error generating cover letter: " +:+ exc_str e)]).
Proof. unfold generate_cover_letter. by rewrite run_try_except. Qed.

(** C1: whatever the stores and the HR email, and however the collaborators
    behave, [generate_cover_letter] never raises.  When the body of its [try]
    raises an exception (from a search of the extraction, from building the
    prompt, from the generation service or from reading its reply), the method
    prints the error line for that exception after what the body did and
    returns [None]; when the body returns, the method returns the same.  So a
    run in which any collaborator call raised ends with the error line of that
    exception and with [None]. *)
Theorem generate_cover_letter_never_raises self (r j : FAISS) hr_email w :
  let body := run h (generate_cover_letter_body self r j hr_email) w in
  let res := run h (generate_cover_letter self r j hr_email) w in
  (∃ letter, outcome res = inr letter) ∧
  match outcome body with
  | inl e =>
      outcome res = inr None ∧ world res = world body ∧
      trace res
      = trace body ++ [Printed ("Error generating cover letter: " +:+ exc_str e)]
  | inr letter => res = body
  end ∧
  (∀ e, Some e ∈ raised <$> trace res →
        outcome body = inl e ∧ outcome res = inr None ∧
        last (trace res)
        = Some (Printed ("Error generating cover letter: " +:+ exc_str e))).
Proof.
  intros body res.
  assert (Hres : res = or_else body
            (λ e w', mkResult (inr None) w'
               [Printed ("Error generating cover letter: " +:+ exc_str e)]))
    by apply run_generate_cover_letter.
  pose proof (propagates_generate_cover_letter_body self r j hr_email w)
    as Hbody. fold body in Hbody.
  unfold or_else in Hres.
  destruct (outcome body) as [e0|letter] eqn:Hout; simpl in Hres.
  - rewrite Hres; simpl. split; [by eexists|]. split; [done|].
    intros e. rewrite fmap_app, elem_of_app. simpl.
    rewrite list_elem_of_singleton. intros [Hin|[=]].
    destruct (Hbody e Hin) as [He _].
    assert (e = e0) as -> by congruence.
    by rewrite last_snoc.
  - rewrite Hres. split; [by eexists|]. split; [done|].
    intros e Hin. destruct (Hbody e Hin) as [He _]. congruence.
Qed.

(** C8: [extract_key_information] and [calculate_match_scores] catch nothing:
    in every run in which a retrieval or a similarity search raises, the method
    stops at that call and raises the same exception to its caller, while
    [generate_cover_letter] in such a run returns [None]. *)
Theorem extractor_and_scorer_propagate self (r j : FAISS) hr_email :
  propagates h (extract_key_information self r j) ∧
  propagates h (calculate_match_scores self r j) ∧
  (∀ w e,
     Some e ∈ raised <$> trace (run h (generate_cover_letter self r j hr_email) w) →
     outcome (run h (generate_cover_letter self r j hr_email) w) = inr None).
Proof.
  split; [apply propagates_extract_key_information|].
  split; [apply propagates_calculate_match_scores|].
  intros w e. rewrite run_generate_cover_letter. unfold or_else.
  destruct (outcome (run h (generate_cover_letter_body self r j hr_email) w))
    as [e0|letter] eqn:Hout; simpl; [done|].
  intros Hin.
  destruct (propagates_generate_cover_letter_body self r j hr_email w e Hin).
  congruence.
Qed.

End Exceptions.

Lemma generate_cover_letter_never_raises_witness :
  outcome
    (run (Reference.collaborators Reference.unit_distance Reference.unreachable)
       (generate_cover_letter Reference.generator
          Reference.resume_index Reference.jd_index "hr@example.org")
       Reference.empty_world)
  = inr None.
Proof.
  pose proof
    (generate_cover_letter_never_raises
       (Reference.collaborators Reference.unit_distance Reference.unreachable)
       Reference.generator Reference.resume_index Reference.jd_index
       "hr@example.org" Reference.empty_world) as H.
  cbv zeta in H. destruct H as (_ & _ & H).
  apply (H (Exception "APIConnectionError" "Connection error.")).
  compute_done.
Defined.

Lemma extractor_and_scorer_propagate_witness :
  outcome
    (run (Reference.failing_on
            "What are the candidate's most relevant work experiences, projects, and achievements?"
            (Exception "RuntimeError" "encode failed")
            Reference.unit_distance (Reference.reply "Dear team"))
       (extract_key_information Reference.generator
          Reference.resume_index Reference.jd_index)
       Reference.empty_world)
  = inl (Exception "RuntimeError" "encode failed").
Proof.
  pose proof
    (extractor_and_scorer_propagate
       (Reference.failing_on
          "What are the candidate's most relevant work experiences, projects, and achievements?"
          (Exception "RuntimeError" "encode failed")
          Reference.unit_distance (Reference.reply "Dear team"))
       Reference.generator Reference.resume_index Reference.jd_index
       "hr@example.org") as (H & _ & _).
  apply (H Reference.empty_world (Exception "RuntimeError" "encode failed")).
  compute_done.
Defined.

(** ** Stepping through a method *)

Section Steps.
Context {FAISS W : Type} (h : handler FAISS W).
Implicit Types (self : GroqCoverLetterGenerator) (w : W).

Lemma run_perform_bind {X B} (c : call FAISS X) (f : X → prog FAISS B) w :
  run h (perform c ≫= f) w
  = match (h X c w).1 with
    | inl e => mkResult (inl e) (h X c w).2 [Called c (inl e)]
    | inr x => after (Called c (inr x)) (run h (f x) (h X c w).2)
    end.
Proof.
  rewrite run_bind, run_perform. unfold and_then; simpl.
  by destruct ((h X c w).1).
Qed.

Lemma run_ret_bind {A B} (a : A) (f : A → prog FAISS B) w :
  run h (Ret a ≫= f) w = run h (f a) w.
Proof. done. Qed.

End Steps.

(** ** What the query operations call *)

Section Frames.
Context {FAISS W : Type} (h : handler FAISS W).
Implicit Types (self : GroqCoverLetterGenerator) (w : W).

(** A trace entry of a search builds, loads and saves nothing. *)
Lemma is_search_frame (e : entry FAISS) :
  is_search e = true → touches_index e = false ∧ writes_storage e = false.
Proof. destruct e as [X c r|line]; [by destruct c|done]. Qed.

Lemma trace_perform {X} (Q : entry FAISS → Prop) (c : call FAISS X) w :
  (∀ r, Q (Called c r)) → Forall Q (trace (run h (perform c) w)).
Proof. intros HQ. rewrite run_perform. simpl. by repeat constructor. Qed.

Lemma trace_mret {A} (Q : entry FAISS → Prop) (a : A) w :
  Forall Q (trace (run h (mret a) w)).
Proof. constructor. Qed.

Lemma trace_first {A} (Q : entry FAISS → Prop) (l : list A) w :
  Forall Q (trace (run h (first l) w)).
Proof. destruct l; constructor. Qed.

Lemma trace_print (Q : entry FAISS → Prop) line w :
  Q (Printed line) → Forall Q (trace (run h (print line) w)).
Proof. intros HQ. by repeat constructor. Qed.

Create HintDb traces discriminated.
#[local] Hint Resolve trace_mret trace_getitem trace_first : traces.
#[local] Hint Extern 2 (Forall _ (trace (run _ (_ ≫= _) _))) =>
  apply trace_bind; [|intros ? ?] : traces.
#[local] Hint Extern 2 (Forall _ (trace (run _ (for_each _ _ _) _))) =>
  apply trace_for_each; intros ? ? ? : traces.
#[local] Hint Extern 2 (Forall _ (trace (run _ (perform _) _))) =>
  apply trace_perform; intros ?; done : traces.

Lemma searches_get_relevant_context self (vs : FAISS) q k w :
  Forall (λ e, is_search e = true)
    (trace (run h (get_relevant_context self vs q k) w)).
Proof. unfold get_relevant_context. auto with traces. Qed.

#[local] Hint Resolve searches_get_relevant_context : traces.

Lemma searches_extract_key_information self (r j : FAISS) w :
  Forall (λ e, is_search e = true)
    (trace (run h (extract_key_information self r j) w)).
Proof. unfold extract_key_information. auto 7 with traces. Qed.

Lemma searches_calculate_match_scores self (r j : FAISS) w :
  Forall (λ e, is_search e = true)
    (trace (run h (calculate_match_scores self r j) w)).
Proof.
  unfold calculate_match_scores.
  apply trace_bind; [auto with traces|]. intros requirements w'.
  apply trace_for_each. intros req scores w''.
  apply trace_bind; [auto with traces|].
  intros [|m ms] ?; auto with traces.
Qed.

Lemma no_write_generate_cover_letter self (r j : FAISS) hr_email w :
  Forall (λ e, writes_storage e = false)
    (trace (run h (generate_cover_letter self r j hr_email) w)).
Proof.
  unfold generate_cover_letter. apply trace_try_except.
  - unfold generate_cover_letter_body.
    apply trace_bind.
    { eapply Forall_impl; [apply searches_extract_key_information|].
      intros e He. by apply is_search_frame. }
    intros info w'. auto 12 with traces.
  - intros e w'. apply trace_bind; [by apply trace_print|].
    intros ? ?. auto with traces.
Qed.

(** *** Worlds *)

Lemma world_perform_search {X} (c : call FAISS X) w :
  searches_read_only h → is_search (Called c (inl (IndexError ""))) = true →
  world (run h (perform c) w) = w.
Proof.
  intros [Hs Hsw] Hc. rewrite run_perform. simpl.
  destruct c; try discriminate; [apply Hs|apply Hsw].
Qed.

Lemma world_get_relevant_context self (vs : FAISS) q k w :
  searches_read_only h →
  world (run h (get_relevant_context self vs q k) w) = w.
Proof.
  intros Hro. unfold get_relevant_context.
  apply (world_bind h (λ w', w' = w)).
  - by apply world_perform_search.
  - by intros docs w' ->.
Qed.

Lemma world_extract_key_information self (r j : FAISS) w :
  searches_read_only h →
  world (run h (extract_key_information self r j) w) = w.
Proof.
  intros Hro. unfold extract_key_information.
  assert (Hbody : ∀ (vs : FAISS) key (info : gmap string string) w',
            w' = w →
            world (run h (query ← getitem queries key;
                          context ← get_relevant_context self vs query None;
                          mret (<[key := context]> info)) w') = w).
  { intros vs key info w' ->. apply (world_bind h (λ w', w' = w)).
    - unfold getitem. by destruct (queries !! key).
    - intros query w' ->. apply (world_bind h (λ w', w' = w)).
      + by apply world_get_relevant_context.
      + by intros context w' ->. }
  apply (world_bind h (λ w', w' = w)).
  - apply (world_for_each h (λ w', w' = w)); [|done].
    intros key info w'. apply Hbody.
  - intros info w' ->. apply (world_bind h (λ w', w' = w)).
    + apply (world_for_each h (λ w', w' = w)); [|done].
      intros key info' w'. apply Hbody.
    + by intros info' w' ->.
Qed.

Lemma world_calculate_match_scores self (r j : FAISS) w :
  searches_read_only h →
  world (run h (calculate_match_scores self r j) w) = w.
Proof.
  intros Hro. unfold calculate_match_scores.
  apply (world_bind h (λ w', w' = w)).
  - by apply world_get_relevant_context.
  - intros requirements w' ->.
    apply (world_for_each h (λ w', w' = w)); [|done].
    intros req scores w' ->. apply (world_bind h (λ w', w' = w)).
    + by apply world_perform_search.
    + by intros [|m ms] w' ->.
Qed.

End Frames.

(** ** The index store *)

Section IndexStore.
Context {FAISS W : Type} (h : handler FAISS W).
Implicit Types (self : GroqCoverLetterGenerator) (w : W).

Ltac unfold_prog :=
  unfold load_or_create_vector_store, create_vector_store, print, perform,
    mbind, prog_bind, mret, prog_ret.

Ltac answer H :=
  cbn -[Py.os_path_join String.append]; rewrite H;
  cbn -[Py.os_path_join String.append].

Lemma run_create_vector_store self text store_path w1 vs w2 w3 w4 :
  h _ (FAISS_from_documents (mkDocument <$> text_splitter self text)) w1
  = (inr vs, w2) →
  h _ (os_makedirs (vector_store_path self)) w2 = (inr tt, w3) →
  h _ (save_local vs store_path) w3 = (inr tt, w4) →
  run h (create_vector_store self text store_path) w1
  = mkResult (inr vs) w4
      [Called (FAISS_from_documents (mkDocument <$> text_splitter self text))
         (inr vs);
       Called (os_makedirs (vector_store_path self)) (inr tt);
       Called (save_local vs store_path) (inr tt)].
Proof.
  intros Hbuild Hdir Hsave. unfold_prog.
  answer Hbuild. answer Hdir. answer Hsave. done.
Qed.

Lemma run_load_found self text store_name w w1 vs w2 :
  let store_path := Py.os_path_join (vector_store_path self) store_name in
  h _ (os_path_exists store_path) w = (inr true, w1) →
  h _ (FAISS_load_local store_path) w1 = (inr vs, w2) →
  run h (load_or_create_vector_store self text store_name) w
  = mkResult (inr vs) w2
      [Called (os_path_exists store_path) (inr true);
       Called (FAISS_load_local store_path) (inr vs)].
Proof.
  intros store_path Hfound Hload. subst store_path. unfold_prog.
  answer Hfound. answer Hload. done.
Qed.

Lemma run_load_not_found self text store_name w w1 :
  let store_path := Py.os_path_join (vector_store_path self) store_name in
  h _ (os_path_exists store_path) w = (inr false, w1) →
  run h (load_or_create_vector_store self text store_name) w
  = after (Called (os_path_exists store_path) (inr false))
      (run h (create_vector_store self text store_path) w1).
Proof.
  intros store_path Hfound. subst store_path. unfold_prog.
  answer Hfound. done.
Qed.

Lemma run_load_failed self text store_name w w1 e w2 :
  let store_path := Py.os_path_join (vector_store_path self) store_name in
  h _ (os_path_exists store_path) w = (inr true, w1) →
  h _ (FAISS_load_local store_path) w1 = (inl e, w2) →
  run h (load_or_create_vector_store self text store_name) w
  = after (Called (os_path_exists store_path) (inr true))
      (after (Called (FAISS_load_local store_path) (inl e))
         (after (Printed ("Error loading vector store: " +:+ exc_str e))
            (run h (create_vector_store self text store_path) w2))).
Proof.
  intros store_path Hfound Hload. subst store_path. unfold_prog.
  answer Hfound. answer Hload. done.
Qed.

(** C2: when a persisted index exists at the store path and loading it raises,
    whatever the exception, [load_or_create_vector_store] catches it, prints
    the error line and goes on to build the index from the text: from there on
    the run is the run of the rebuild, the same one that follows when nothing
    exists at the store path. *)
Theorem load_failure_falls_through self text store_name w :
  let store_path := Py.os_path_join (vector_store_path self) store_name in
  let rebuild := create_vector_store self text store_path in
  (∀ w1 e w2,
     h _ (os_path_exists store_path) w = (inr true, w1) →
     h _ (FAISS_load_local store_path) w1 = (inl e, w2) →
     run h (load_or_create_vector_store self text store_name) w
     = after (Called (os_path_exists store_path) (inr true))
         (after (Called (FAISS_load_local store_path) (inl e))
            (after (Printed ("Error loading vector store: " +:+ exc_str e))
               (run h rebuild w2)))) ∧
  (∀ w1,
     h _ (os_path_exists store_path) w = (inr false, w1) →
     run h (load_or_create_vector_store self text store_name) w
     = after (Called (os_path_exists store_path) (inr false))
         (run h rebuild w1)).
Proof.
  intros store_path rebuild. split.
  - intros w1 e w2. apply run_load_failed.
  - intros w1. apply run_load_not_found.
Qed.

End IndexStore.

Lemma load_failure_falls_through_witness :
  outcome
    (run (Reference.collaborators Reference.unit_distance Reference.unreachable)
       (load_or_create_vector_store Reference.generator
          "Python, Go and Kubernetes" "resume")
       Reference.corrupt_world)
  = inr [mkDocument "Python, Go and Kubernetes"].
Proof.
  pose proof
    (load_failure_falls_through
       (Reference.collaborators Reference.unit_distance Reference.unreachable)
       Reference.generator "Python, Go and Kubernetes" "resume"
       Reference.corrupt_world) as H.
  cbv zeta in H. destruct H as [H _].
  rewrite (H Reference.corrupt_world
             (Exception "RuntimeError" "could not read the index")
             Reference.corrupt_world).
  - vm_compute. reflexivity.
  - vm_compute. reflexivity.
  - vm_compute. reflexivity.
Defined.

(** *** The index store over the reference collaborators *)

Section ReferenceStore.
Variable distance : string → string → Q.
Variable chat : ChatRequest → exn + ChatCompletion.
#[local] Abbreviation h := (Reference.collaborators distance chat).

Lemma reference_build self text store_name (w : Reference.World) :
  let store_path := Py.os_path_join (vector_store_path self) store_name in
  let documents := mkDocument <$> text_splitter self text in
  let res := run h (load_or_create_vector_store self text store_name) w in
  Reference.files w !! store_path = None →
  store_path ∉ Reference.dirs w →
  outcome res = inr documents ∧
  Reference.files (world res) !! store_path = Some (Reference.Saved documents) ∧
  vector_store_path self ∈ Reference.dirs (world res).
Proof.
  intros store_path documents res Hfile Hdir. subst res.
  rewrite (run_load_not_found h self text store_name w w).
  2:{ simpl. fold store_path. rewrite Hfile.
      rewrite bool_decide_eq_false_2 by (by intros [? ?]).
      by rewrite bool_decide_eq_false_2. }
  fold store_path.
  erewrite run_create_vector_store by reflexivity. simpl.
  split; [done|]. split.
  - apply lookup_insert_eq.
  - set_solver.
Qed.

End ReferenceStore.




(** ** Retrieval *)

Section Ranking.
Variable distance : string → string → Q.

Lemma insert_ranked_perm m l : Reference.insert_ranked m l ≡ₚ m :: l.
Proof.
  induction l as [|m' l IH]; simpl; [done|].
  destruct (Qle_bool m.2 m'.2); [done|].
  rewrite IH. apply Permutation_swap.
Qed.

Lemma ranked_perm index query :
  Reference.ranked distance index query ≡ₚ Reference.scored distance index query.
Proof.
  unfold Reference.ranked.
  induction (Reference.scored distance index query) as [|m l IH]; simpl.
  - done.
  - by rewrite insert_ranked_perm, IH.
Qed.

Lemma nearer_trans a b c :
  Reference.nearer a b → Reference.nearer b c → Reference.nearer a c.
Proof. unfold Reference.nearer. apply Qle_trans. Qed.

Lemma insert_ranked_sorted m l :
  StronglySorted Reference.nearer l →
  StronglySorted Reference.nearer (Reference.insert_ranked m l).
Proof.
  induction 1 as [|m' l Hs IH Hall]; simpl.
  - repeat constructor.
  - destruct (Qle_bool m.2 m'.2) eqn:Hle.
    + apply Qle_bool_iff in Hle. constructor; [by constructor|].
      constructor; [done|].
      eapply Forall_impl; [exact Hall|]. intros b Hb.
      by apply (nearer_trans m m' b).
    + assert (Reference.nearer m' m) as Hm.
      { unfold Reference.nearer. apply Qlt_le_weak, Qnot_le_lt.
        intros Hc. apply Qle_bool_iff in Hc. congruence. }
      constructor; [done|].
      rewrite insert_ranked_perm. by constructor.
Qed.

Lemma ranked_sorted index query :
  StronglySorted Reference.nearer (Reference.ranked distance index query).
Proof.
  unfold Reference.ranked.
  induction (Reference.scored distance index query) as [|m l IH]; simpl.
  - constructor.
  - by apply insert_ranked_sorted.
Qed.

(** A search returns the [k] nearest chunks, nearest first. *)
Lemma search_with_score_nearest index query k :
  let top := Reference.search_with_score distance index query k in
  ∃ rest,
    top ++ rest ≡ₚ Reference.scored distance index query ∧
    length top = Z.to_nat k `min` length index ∧
    StronglySorted Reference.nearer top ∧
    (∀ a b, a ∈ top → b ∈ rest → Reference.nearer a b).
Proof.
  intros top. subst top. unfold Reference.search_with_score.
  exists (drop (Z.to_nat k) (Reference.ranked distance index query)).
  pose proof (ranked_sorted index query) as Hs.
  rewrite <- (take_drop (Z.to_nat k) (Reference.ranked distance index query))
    in Hs.
  split; [rewrite take_drop; apply ranked_perm|]. split.
  - rewrite length_take. f_equal.
    rewrite (Permutation_length (ranked_perm index query)).
    unfold Reference.scored. by rewrite length_fmap.
  - split; [by apply StronglySorted_app_1_l in Hs|].
    intros a b Ha Hb. by eapply StronglySorted_app_1_elem_of.
Qed.

End Ranking.

Section Retrieval.
Context {FAISS W : Type} (h : handler FAISS W).
Implicit Types (self : GroqCoverLetterGenerator) (w : W).

Lemma run_get_relevant_context self (vs : FAISS) query k w :
  let c := similarity_search vs query (default 3%Z k) in
  run h (get_relevant_context self vs query k) w
  = match (h _ c w).1 with
    | inl e => mkResult (inl e) (h _ c w).2 [Called c (inl e)]
    | inr documents =>
        mkResult (inr (context_of documents)) (h _ c w).2
          [Called c (inr documents)]
    end.
Proof.
  intros c. unfold get_relevant_context. rewrite run_perform_bind.
  fold c. by destruct ((h _ c w).1).
Qed.

(** One pass of a loop of [extract_key_information]. *)
Lemma run_extract_topic self (vs : FAISS) key query
    (info : gmap string string) w :
  queries !! key = Some query →
  let c := similarity_search vs query 3%Z in
  run h (query ← getitem queries key;
         context ← get_relevant_context self vs query None;
         mret (<[key := context]> info)) w
  = match (h _ c w).1 with
    | inl e => mkResult (inl e) (h _ c w).2 [Called c (inl e)]
    | inr documents =>
        mkResult (inr (<[key := context_of documents]> info)) (h _ c w).2
          [Called c (inr documents)]
    end.
Proof.
  intros Hkey c. unfold getitem. rewrite Hkey, run_ret_bind.
  rewrite run_bind, run_get_relevant_context. simpl. fold c.
  unfold and_then. by destruct ((h _ c w).1).
Qed.

End Retrieval.

(** C4: [get_relevant_context] asks the index for the [k] chunks most similar
    to the query, [k] being 3 when it is not given, and returns their texts
    joined by newlines in the order the index returned them; when the index
    returns no chunk it returns the empty string.  Over the reference index,
    which ranks by distance, these are the [k] nearest chunks (all of them when
    there are fewer), nearest first, and an index without chunks gives the
    empty string. *)
Theorem get_relevant_context_spec
    {FAISS W : Type} (h : handler FAISS W) self (vs : FAISS) query k (w : W) :
  let c := similarity_search vs query (default 3%Z k) in
  (∀ documents w',
     h _ c w = (inr documents, w') →
     run h (get_relevant_context self vs query k) w
     = mkResult (inr (Py.join nl (page_content <$> documents))) w'
         [Called c (inr documents)]) ∧
  (∀ w',
     h _ c w = (inr [], w') →
     outcome (run h (get_relevant_context self vs query k) w) = inr "") ∧
  (∀ distance chat (index : Reference.Index) rw,
     ∃ top rest,
       outcome (run (Reference.collaborators distance chat)
                  (get_relevant_context self index query k) rw)
       = inr (Py.join nl (page_content <$> top.*1)) ∧
       top ++ rest ≡ₚ Reference.scored distance index query ∧
       length top = Z.to_nat (default 3%Z k) `min` length index ∧
       StronglySorted Reference.nearer top ∧
       (∀ a b, a ∈ top → b ∈ rest → Reference.nearer a b)) ∧
  (∀ distance chat rw,
     outcome (run (Reference.collaborators distance chat)
                (get_relevant_context self [] query k) rw)
     = inr "").
Proof.
  intros c. repeat split.
  - intros documents w' Hc. rewrite run_get_relevant_context.
    fold c. by rewrite Hc.
  - intros w' Hc. rewrite run_get_relevant_context. fold c. by rewrite Hc.
  - intros distance chat index rw.
    destruct (search_with_score_nearest distance index query (default 3%Z k))
      as (rest & Hperm & Hlen & Hsorted & Hnear).
    eexists _, rest. split; [|done].
    rewrite run_get_relevant_context. reflexivity.
  - intros distance chat rw. rewrite run_get_relevant_context. simpl.
    unfold Reference.search, Reference.search_with_score.
    change (Reference.ranked distance [] query) with (@nil (Document * Q)).
    by rewrite take_nil.
Qed.

Lemma get_relevant_context_spec_witness :
  outcome
    (run (Reference.collaborators Reference.unit_distance Reference.unreachable)
       (get_relevant_context Reference.generator Reference.jd_index
          "Python, Go and Kubernetes" None)
       Reference.empty_world)
  = inr ("Python, Go and Kubernetes" +:+ nl
         +:+ "experience with distributed systems").
Proof.
  pose proof
    (get_relevant_context_spec
       (Reference.collaborators Reference.unit_distance Reference.unreachable)
       Reference.generator Reference.jd_index "Python, Go and Kubernetes" None
       Reference.empty_world) as H.
  cbv zeta in H. destruct H as (H & _).
  rewrite (H [mkDocument "Python, Go and Kubernetes";
              mkDocument "experience with distributed systems"]
             Reference.empty_world).
  - vm_compute. reflexivity.
  - vm_compute. reflexivity.
Defined.

(** ** Extraction *)

Section Extraction.
Context {FAISS W : Type} (h : handler FAISS W).
Implicit Types (self : GroqCoverLetterGenerator) (w : W).

Lemma queries_labels : dom queries = topic_labels.
Proof. compute_done. Qed.

Lemma queries_total key :
  key ∈ topic_labels → queries !! key = Some (queries !!! key).
Proof.
  rewrite <- queries_labels. intros [query Hq]%elem_of_dom.
  by rewrite (lookup_total_correct _ _ _ Hq).
Qed.

(** The loop over topic labels: either a search raised, or every label got
    the context of what its search returned. *)
Lemma run_topics self (vs : FAISS) keys (info : gmap string string) w :
  Forall (λ key, key ∈ topic_labels) keys →
  let res :=
    run h (for_each keys
             (λ key info,
                query ← getitem queries key;
                context ← get_relevant_context self vs query None;
                mret (<[key := context]> info))
             info) w in
  (∃ e query w', outcome res = inl e ∧
     (h _ (similarity_search vs query 3%Z) w').1 = inl e) ∨
  (∃ ds,
     length ds = length keys ∧
     outcome res
     = inr (foldl (λ info kd, <[kd.1 := context_of kd.2]> info) info
              (zip keys ds)) ∧
     trace res
     = zip_with
         (λ key d,
            Called (similarity_search vs (queries !!! key) 3%Z) (inr d))
         keys ds).
Proof.
  intros Hkeys. revert info w.
  induction Hkeys as [|key keys Hkey Hkeys IH]; intros info w res; subst res.
  - right. by exists [].
  - rewrite run_for_each_cons.
    rewrite (run_extract_topic h self vs key _ info w (queries_total _ Hkey)).
    destruct (h _ (similarity_search vs (queries !!! key) 3%Z) w)
      as [[e|d] w1] eqn:Hcall; unfold and_then; cbn [fst snd outcome world trace].
    + left. exists e, (queries !!! key), w. by rewrite Hcall.
    + destruct (IH (<[key := context_of d]> info) w1)
        as [(e & query & w' & Hout & Hraise)|(ds & Hlen & Hout & Htrace)].
      * left. exists e, query, w'. split; [|done].
        by rewrite Hout.
      * right. exists (d :: ds). rewrite Hout, Htrace. simpl.
        by rewrite Hlen.
Qed.

(** C3: [extract_key_information] searches the resume store for the four
    candidate topics and the job-description store for the two job topics, in
    that order, each with the hardcoded query of its label and [k = 3].  When
    no search raises it returns a mapping whose keys are exactly the six topic
    labels, each label holding the context of what its search returned; a
    label whose search returned nothing holds the empty string. *)
Theorem extract_key_information_bundle self (r j : FAISS) w :
  let res := run h (extract_key_information self r j) w in
  let ask vs key (documents : list Document) : entry FAISS :=
    Called (similarity_search vs (queries !!! key) 3%Z) (inr documents) in
  (searches_answer h → ∃ info, outcome res = inr info) ∧
  (∀ info,
     outcome res = inr info →
     dom info = topic_labels ∧
     ∃ d1 d2 d3 d4 d5 d6,
       trace res
       = [ask r "technical_skills" d1; ask r "soft_skills" d2;
          ask r "experience" d3; ask r "education" d4;
          ask j "job_requirements" d5; ask j "job_responsibilities" d6] ∧
       info !! "technical_skills" = Some (Py.join nl (page_content <$> d1)) ∧
       info !! "soft_skills" = Some (Py.join nl (page_content <$> d2)) ∧
       info !! "experience" = Some (Py.join nl (page_content <$> d3)) ∧
       info !! "education" = Some (Py.join nl (page_content <$> d4)) ∧
       info !! "job_requirements" = Some (Py.join nl (page_content <$> d5)) ∧
       info !! "job_responsibilities"
       = Some (Py.join nl (page_content <$> d6))) ∧
  Py.join nl (page_content <$> []) = "".
Proof.
  intros res ask.
  assert (Hcases :
    (∃ e vs query w', outcome res = inl e ∧
       (h _ (similarity_search vs query 3%Z) w').1 = inl e) ∨
    (∃ d1 d2 d3 d4 d5 d6,
       outcome res
       = inr (<["job_responsibilities" := context_of d6]>
                (<["job_requirements" := context_of d5]>
                   (<["education" := context_of d4]>
                      (<["experience" := context_of d3]>
                         (<["soft_skills" := context_of d2]>
                            (<["technical_skills" := context_of d1]> ∅)))))) ∧
       trace res
       = [ask r "technical_skills" d1; ask r "soft_skills" d2;
          ask r "experience" d3; ask r "education" d4;
          ask j "job_requirements" d5; ask j "job_responsibilities" d6])).
  { subst res. unfold extract_key_information. rewrite run_bind.
    unfold and_then.
    destruct (run_topics self r
                ["technical_skills"; "soft_skills"; "experience"; "education"]
                ∅ w ltac:(repeat constructor; compute_done))
      as [(e & query & w' & Hout & Hraise)|(ds & Hlen & Hout & Htrace)].
    { left. exists e, r, query, w'. by rewrite Hout. }
    rewrite Hout, Htrace. cbn [outcome world trace]. rewrite run_bind.
    unfold and_then.
    destruct ds as [|d1 [|d2 [|d3 [|d4 [|]]]]]; try discriminate Hlen.
    match goal with
    | |- context [run h (for_each ?keys ?body ?info) ?w1] =>
        destruct (run_topics self j
                    ["job_requirements"; "job_responsibilities"] info w1
                    ltac:(repeat constructor; compute_done))
          as [(e & query & w' & Hout2 & Hraise)|(ds & Hlen2 & Hout2 & Htrace2)]
    end.
    { left. exists e, j, query, w'. by rewrite Hout2. }
    rewrite Hout2, Htrace2. cbn [outcome world trace].
    destruct ds as [|d5 [|d6 [|]]]; try discriminate Hlen2.
    right. by exists d1, d2, d3, d4, d5, d6. }
  split; [|split; [|done]].
  - intros [Hanswer _].
    destruct Hcases as [(e & vs & query & w' & _ & Hraise)|(? & ? & ? & ? & ? & ? & Hout & _)].
    + destruct (Hanswer vs query 3%Z w') as [docs Hdocs]. congruence.
    + by eexists.
  - intros info Hinfo.
    destruct Hcases as [(e & _ & _ & _ & Hout & _)|(d1 & d2 & d3 & d4 & d5 & d6 & Hout & Htrace)];
      [congruence|].
    rewrite Hout in Hinfo. injection Hinfo as <-. split.
    + rewrite !dom_insert_L, dom_empty_L. unfold topic_labels. set_solver.
    + exists d1, d2, d3, d4, d5, d6. split; [done|].
      unfold context_of. by repeat split; simplify_map_eq.
Qed.

End Extraction.

Lemma extract_key_information_bundle_witness :
  ∃ info,
    outcome
      (run (Reference.collaborators Reference.unit_distance
              Reference.unreachable)
         (extract_key_information Reference.generator [] [])
         Reference.empty_world)
    = inr info ∧
    dom info = topic_labels.
Proof.
  pose proof
    (extract_key_information_bundle
       (Reference.collaborators Reference.unit_distance Reference.unreachable)
       Reference.generator [] [] Reference.empty_world) as H.
  cbv zeta in H. destruct H as (Hreturns & Hbundle & _).
  destruct Hreturns as [info Hinfo].
  { split; intros vs q k w; eexists; reflexivity. }
  exists info. split; [exact Hinfo|]. apply (Hbundle info Hinfo).
Defined.

(** ** The frame of the query operations *)

(** C10: [get_relevant_context], [extract_key_information] and
    [calculate_match_scores] call nothing but similarity searches: no call of
    theirs builds, loads or saves an index or makes a directory, so with
    searches that leave the world alone the world after them is the world
    before.  [generate_cover_letter] writes nothing to the storage directory
    either.  [load_or_create_vector_store] does: whenever it returns an index
    after finding nothing at the store path, it has made the storage directory
    and saved that index under the store path. *)
Theorem query_operations_only_search
    {FAISS W : Type} (h : handler FAISS W) self (vs r j : FAISS)
    query k hr_email text store_name (w : W) :
  let quiet (e : entry FAISS) :=
    is_search e = true ∧ touches_index e = false ∧ writes_storage e = false in
  Forall quiet (trace (run h (get_relevant_context self vs query k) w)) ∧
  Forall quiet (trace (run h (extract_key_information self r j) w)) ∧
  Forall quiet (trace (run h (calculate_match_scores self r j) w)) ∧
  (searches_read_only h →
   world (run h (get_relevant_context self vs query k) w) = w ∧
   world (run h (extract_key_information self r j) w) = w ∧
   world (run h (calculate_match_scores self r j) w) = w) ∧
  Forall (λ e, writes_storage e = false)
    (trace (run h (generate_cover_letter self r j hr_email) w)) ∧
  (∀ index,
     let store_path := Py.os_path_join (vector_store_path self) store_name in
     let res := run h (load_or_create_vector_store self text store_name) w in
     (h _ (os_path_exists store_path) w).1 = inr false →
     outcome res = inr index →
     Called (os_makedirs (vector_store_path self)) (inr tt) ∈ trace res ∧
     Called (save_local index store_path) (inr tt) ∈ trace res).
Proof.
  intros quiet.
  assert (Hquiet : ∀ t, Forall (λ e, is_search e = true) t → Forall quiet t).
  { intros t Ht. eapply Forall_impl; [exact Ht|]. intros e He.
    split; [done|]. by apply is_search_frame. }
  split; [apply Hquiet, searches_get_relevant_context|].
  split; [apply Hquiet, searches_extract_key_information|].
  split; [apply Hquiet, searches_calculate_match_scores|].
  split.
  { intros Hro. split; [by apply world_get_relevant_context|].
    split; [by apply world_extract_key_information|].
    by apply world_calculate_match_scores. }
  split; [apply no_write_generate_cover_letter|].
  intros index store_path res Hmissing Hindex. subst res.
  destruct (h _ (os_path_exists store_path) w) as [found w1] eqn:Hfound.
  simpl in Hmissing. subst found.
  rewrite (run_load_not_found h self text store_name w w1 Hfound) in *.
  fold store_path in Hindex |- *.
  unfold create_vector_store, after in *. cbn [outcome trace] in *.
  rewrite run_perform_bind in *.
  destruct (h _ (FAISS_from_documents (mkDocument <$> text_splitter self text))
              w1) as [[e|built] w2]; [done|].
  cbn [fst snd] in *. unfold after in *. cbn [outcome trace] in *.
  rewrite run_perform_bind in *.
  destruct (h _ (os_makedirs (vector_store_path self)) w2) as [[e|[]] w3];
    [done|].
  cbn [fst snd] in *. unfold after in *. cbn [outcome trace] in *.
  rewrite run_perform_bind in *.
  destruct (h _ (save_local built store_path) w3) as [[e|[]] w4]; [done|].
  cbn [fst snd] in *. unfold after in *. cbn in Hindex |- *.
  injection Hindex as ->. split; set_solver.
Qed.

(** ** The chunk size bound *)

Section ChunkBound.
Variables (chunk_size chunk_overlap : nat).
Hypothesis chunk_size_pos : 1 ≤ chunk_size.

#[local] Abbreviation bounded :=
  (Forall (λ chunk, String.length chunk ≤ chunk_size)).
#[local] Abbreviation merge_inv := (Chunker.merge_inv chunk_size).
#[local] Abbreviation process_inv := (Chunker.process_inv chunk_size).
#[local] Abbreviation long_piece_ok := (Chunker.long_piece_ok chunk_size).

Lemma length_app s1 s2 :
  String.length (s1 +:+ s2) = String.length s1 + String.length s2.
Proof.
  induction s1 as [|c s1 IH]; [done|].
  change (String c s1 +:+ s2) with (String c (s1 +:+ s2)).
  simpl. by rewrite IH.
Qed.

Lemma length_lstrip s : String.length (Py.lstrip s) ≤ String.length s.
Proof.
  induction s as [|c s IH]; simpl; [done|].
  destruct (Py.isspace c); simpl; lia.
Qed.

Lemma length_rstrip s : String.length (Py.rstrip s) ≤ String.length s.
Proof.
  induction s as [|c s IH]; simpl; [done|].
  destruct (Py.rstrip s) as [|c' r]; simpl in *.
  - destruct (Py.isspace c); simpl; lia.
  - lia.
Qed.

Lemma length_strip s : String.length (Py.strip s) ≤ String.length s.
Proof.
  unfold Py.strip. etrans; [apply length_rstrip|apply length_lstrip].
Qed.

Lemma length_join_docs docs :
  String.length (Py.join "" docs) = Chunker.total_length docs.
Proof.
  unfold Py.join. induction docs as [|d docs IH]; [done|].
  destruct docs as [|d' docs].
  - simpl. lia.
  - change (String.concat "" (d :: d' :: docs))
      with (d +:+ "" +:+ String.concat "" (d' :: docs)).
    rewrite !length_app, IH. simpl. lia.
Qed.

Lemma total_length_app docs1 docs2 :
  Chunker.total_length (docs1 ++ docs2)
  = Chunker.total_length docs1 + Chunker.total_length docs2.
Proof.
  unfold Chunker.total_length.
  induction docs1 as [|d docs1 IH]; simpl; [done|]. rewrite IH. lia.
Qed.

Lemma join_docs_bound docs :
  Chunker.total_length docs ≤ chunk_size →
  bounded (option_list (Chunker.join_docs docs)).
Proof.
  intros Hlen. unfold Chunker.join_docs. case_bool_decide; simpl.
  - constructor.
  - repeat constructor.
    etrans; [apply length_strip|]. by rewrite length_join_docs.
Qed.

Lemma fold_left_invariant {A S} (I : S → Prop) (P : A → Prop)
    (f : S → A → S) l s :
  I s → Forall P l → (∀ s a, I s → P a → I (f s a)) → I (fold_left f l s).
Proof.
  intros Hs Hl Hf. revert s Hs.
  induction Hl as [|a l Ha Hl IH]; intros s Hs; simpl; auto.
Qed.

(** After shrinking, the pieces that are left and the next piece fit. *)
Lemma shrink_fits len current_doc total :
  total = Chunker.total_length current_doc →
  len ≤ chunk_size →
  let '(current_doc', total') :=
    Chunker.shrink chunk_size chunk_overlap len current_doc total in
  total' = Chunker.total_length current_doc' ∧ total' + len ≤ chunk_size.
Proof.
  intros Htotal Hlen. revert total Htotal.
  induction current_doc as [|d0 rest IH]; intros total Htotal; simpl.
  - subst total. simpl. split; [done|lia].
  - destruct ((chunk_overlap <? total)
              || ((chunk_size <? total + len) && (0 <? total))) eqn:Hcond.
    + apply IH. subst total. simpl. lia.
    + split; [done|].
      apply orb_false_iff in Hcond as [_ [Hroom|Hempty]%andb_false_iff].
      * apply Nat.ltb_ge in Hroom. lia.
      * apply Nat.ltb_ge in Hempty. lia.
Qed.

Lemma merge_step_inv st d :
  merge_inv st → String.length d ≤ chunk_size →
  merge_inv (Chunker.merge_step chunk_size chunk_overlap st d).
Proof.
  destruct st as [[docs current_doc] total].
  intros (Hdocs & Htotal & Hfits) Hd. unfold Chunker.merge_step.
  destruct (chunk_size <? total + String.length d) eqn:Hfull.
  - destruct current_doc as [|d0 rest].
    + subst total. simpl. repeat split; [done|lia..].
    + pose proof (shrink_fits (String.length d) (d0 :: rest) total Htotal Hd)
        as Hshrink.
      destruct (Chunker.shrink chunk_size chunk_overlap (String.length d)
                  (d0 :: rest) total) as [current_doc' total'].
      destruct Hshrink as [Htotal' Hfits'].
      split; [|split].
      * apply Forall_app. split; [done|].
        apply join_docs_bound. by rewrite <- Htotal.
      * rewrite total_length_app. simpl. lia.
      * lia.
  - apply Nat.ltb_ge in Hfull. repeat split; [done| |lia].
    rewrite total_length_app. simpl. lia.
Qed.

Lemma merge_splits_bound splits :
  bounded splits →
  bounded (Chunker.merge_splits chunk_size chunk_overlap splits).
Proof.
  intros Hsplits. unfold Chunker.merge_splits.
  pose proof (fold_left_invariant merge_inv
                (λ d, String.length d ≤ chunk_size)
                (Chunker.merge_step chunk_size chunk_overlap)
                splits ([], [], 0)) as Hinv.
  destruct (fold_left (Chunker.merge_step chunk_size chunk_overlap) splits
              ([], [], 0)) as [[docs current_doc] total].
  destruct Hinv as (Hdocs & Htotal & Hfits).
  - repeat split; [constructor|lia].
  - done.
  - intros st d. apply merge_step_inv.
  - apply Forall_app. split; [done|].
    apply join_docs_bound. by rewrite <- Htotal.
Qed.

Lemma process_bound recurse splits :
  Forall (long_piece_ok recurse) splits →
  bounded (Chunker.process chunk_size chunk_overlap recurse splits).
Proof.
  intros Hsplits. unfold Chunker.process.
  pose proof (fold_left_invariant process_inv (long_piece_ok recurse)
                (Chunker.process_step chunk_size chunk_overlap recurse)
                splits ([], [])) as Hinv.
  destruct (fold_left (Chunker.process_step chunk_size chunk_overlap recurse)
              splits ([], [])) as [final_chunks good_splits].
  destruct Hinv as [Hfinal Hgood].
  - by split.
  - done.
  - intros [final good] s [Hf Hg] Hs. unfold Chunker.process_step.
    destruct (String.length s <? chunk_size) eqn:Hshort.
    + apply Nat.ltb_lt in Hshort. split; [done|].
      apply Forall_app. split; [done|]. repeat constructor. lia.
    + apply Nat.ltb_ge in Hshort. split; [|constructor].
      apply Forall_app. split; [done|].
      apply Forall_app. split; [by apply merge_splits_bound|].
      specialize (Hs Hshort). destruct recurse; [done|by repeat constructor].
  - apply Forall_app. split; [done|]. by apply merge_splits_bound.
Qed.

Lemma chars_length text :
  Forall (λ s, String.length s = 1) (Chunker.chars text).
Proof. induction text; simpl; by constructor. Qed.

Lemma split_text_rec_bound separators text :
  last separators = Some "" →
  bounded (Chunker.split_text_rec chunk_size chunk_overlap separators text).
Proof.
  revert text.
  induction separators as [|separator rest IH]; intros text Hlast; [done|].
  simpl. case_bool_decide as Hsep.
  - subst separator. apply process_bound.
    unfold Chunker.split_with. simpl.
    apply Forall_forall. intros s [_ Hs]%list_elem_of_filter _.
    pose proof (chars_length text) as Hchars.
    rewrite Forall_forall in Hchars. rewrite (Hchars s Hs). lia.
  - destruct rest as [|separator' rest']; [by simplify_eq/=|].
    rewrite last_cons_cons in Hlast.
    destruct (Chunker.contains separator text); [|by apply IH].
    apply process_bound. apply Forall_forall. intros s _ _. by apply IH.
Qed.

End ChunkBound.

Section ChunksInUse.
Context {FAISS W : Type} (h : handler FAISS W).

Lemma trace_for_each_elem {A S} (Q : entry FAISS → Prop)
    (l : list A) (body : A → S → prog FAISS S) acc (w : W) :
  (∀ x acc' w', x ∈ l → Forall Q (trace (run h (body x acc') w'))) →
  Forall Q (trace (run h (for_each l body acc) w)).
Proof.
  revert acc w.
  induction l as [|x l IH]; intros acc w Hbody; simpl; [constructor|].
  apply trace_bind.
  - apply Hbody. by left.
  - intros acc' w'. apply IH. intros y acc'' w'' Hy. apply Hbody. by right.
Qed.

End ChunksInUse.

Lemma page_content_documents (chunks : list string) :
  page_content <$> (mkDocument <$> chunks) = chunks.
Proof. induction chunks as [|chunk chunks IH]; simpl; [done|by f_equal]. Qed.

(** C9: every chunk of the splitter the generator is built with (chunk size
    500, overlap 50, separators paragraph break, line break, space and the
    empty string) is at most 500 characters long, for every text.  So are the
    chunks [load_or_create_vector_store] builds an index from and the
    requirement statements [calculate_match_scores] looks up, since both come
    from that splitter. *)
Theorem chunks_within_chunk_size
    {FAISS W : Type} (h : handler FAISS W)
    groq_api_key vector_store_path text store_name (r j : FAISS) (w : W) :
  let self := __init__ groq_api_key vector_store_path in
  let bounded := Forall (λ chunk, String.length chunk ≤ 500) in
  bounded (text_splitter self text) ∧
  Forall (λ e, bounded (chunks_of e))
    (trace (run h (load_or_create_vector_store self text store_name) w)) ∧
  Forall (λ e, bounded (chunks_of e))
    (trace (run h (calculate_match_scores self r j) w)).
Proof.
  intros self bounded.
  assert (Hsplit : ∀ text', bounded (text_splitter self text')).
  { intros text'. apply split_text_rec_bound; [lia|done]. }
  split; [apply Hsplit|]. split.
  - unfold load_or_create_vector_store.
    apply trace_bind; [apply trace_perform; intros; constructor|].
    intros found w1. apply trace_bind.
    { destruct found; [|constructor].
      apply trace_try_except.
      - apply trace_bind; [apply trace_perform; intros; constructor|].
        intros; constructor.
      - intros e w2. repeat constructor. }
    intros [vs|] w2; [constructor|].
    unfold create_vector_store. apply trace_bind.
    { apply trace_perform. intros res. simpl.
      rewrite page_content_documents. apply Hsplit. }
    intros vs w3. apply trace_bind; [apply trace_perform; intros; constructor|].
    intros ? w4. apply trace_bind; [apply trace_perform; intros; constructor|].
    intros; constructor.
  - unfold calculate_match_scores. apply trace_bind.
    { unfold get_relevant_context.
      apply trace_bind; [apply trace_perform; intros; constructor|].
      intros; constructor. }
    intros requirements w1. apply trace_for_each_elem.
    intros req scores w2 Hreq. apply trace_bind.
    + apply trace_perform. intros res. simpl.
      constructor; [|constructor].
      specialize (Hsplit requirements). unfold bounded in Hsplit.
      rewrite Forall_forall in Hsplit. by apply Hsplit.
    + intros [|m ms] w3; constructor.
Qed.

Lemma query_operations_only_search_witness :
  world
    (run (Reference.collaborators Reference.unit_distance Reference.unreachable)
       (calculate_match_scores Reference.generator
          Reference.resume_index Reference.jd_index)
       Reference.empty_world)
  = Reference.empty_world.
Proof.
  pose proof
    (query_operations_only_search
       (Reference.collaborators Reference.unit_distance Reference.unreachable)
       Reference.generator Reference.jd_index
       Reference.resume_index Reference.jd_index
       "Python" None "hr@example.org" "Python, Go and Kubernetes" "resume"
       Reference.empty_world) as H.
  cbv zeta in H. destruct H as (_ & _ & _ & H & _).
  apply H. split; reflexivity.
Defined.

(** ** Match scores *)

Section ScoreArithmetic.

(** Rounding to the nearest integer stays between the integers around. *)
Lemma round_half_even_bounds (x : Q) (lo hi : Z) :
  (inject_Z lo <= x)%Q → (x <= inject_Z hi)%Q →
  (lo ≤ Py.round_half_even x ≤ hi)%Z.
Proof.
  destruct x as [n d]. unfold Qle, Py.round_half_even. simpl.
  intros Hlo Hhi.
  pose proof (Z.div_mod n (Z.pos d) ltac:(lia)) as Hdiv.
  pose proof (Z.mod_pos_bound n (Z.pos d) ltac:(lia)) as Hmod.
  set (f := (n / Z.pos d)%Z) in *. set (r := (n mod Z.pos d)%Z) in *.
  assert (lo ≤ f)%Z by nia.
  assert (f ≤ hi)%Z by nia.
  assert (0 < r → f + 1 ≤ hi)%Z by nia.
  destruct (2 * r ?= Z.pos d)%Z eqn:Hcmp.
  - apply Z.compare_eq_iff in Hcmp. destruct (Z.even f); lia.
  - lia.
  - apply Z.compare_gt_iff in Hcmp. lia.
Qed.

Lemma match_score_range (distance : Q) :
  (0 <= distance <= 1)%Q → (0 <= match_score distance <= 100)%Q.
Proof.
  intros [Hlo Hhi]. unfold match_score, Py.round2.
  destruct (round_half_even_bounds ((1 - distance) * 100 * 100)%Q 0 10000)
    as [Hz0 Hz1].
  - destruct distance as [n d]. unfold Qle in *. simpl in *. nia.
  - destruct distance as [n d]. unfold Qle in *. simpl in *. nia.
  - unfold Qle. simpl. lia.
Qed.

End ScoreArithmetic.

Section ScoresOf.
Implicit Types (found : list (string * list (Document * Q))).

Lemma scores_of_snoc found item :
  scores_of (found ++ [item]) = record_score (scores_of found) item.
Proof. unfold scores_of. by rewrite fold_left_app. Qed.

(** A score in the result is the score of a requirement that had a match. *)
Lemma scores_of_lookup_inv found key score :
  scores_of found !! key = Some score →
  ∃ req m ms,
    (req, m :: ms) ∈ found ∧ key = Py.strip req ∧ score = match_score m.2.
Proof.
  induction found as [|[req ms] found IH] using rev_ind.
  - unfold scores_of. simpl. by rewrite lookup_empty.
  - rewrite scores_of_snoc. unfold record_score. simpl.
    assert (Hold : scores_of found !! key = Some score →
                   ∃ req' m' ms',
                     (req', m' :: ms') ∈ found ++ [(req, ms)] ∧
                     key = Py.strip req' ∧ score = match_score m'.2).
    { intros (req' & m' & ms' & Hin & Hkey & Hscore)%IH.
      exists req', m', ms'. split; [|done]. apply elem_of_app. by left. }
    destruct ms as [|m ms]; [done|].
    destruct (decide (Py.strip req = key)) as [<-|Hne].
    + rewrite lookup_insert_eq. intros [= <-].
      exists req, m, ms. split; [|done]. apply elem_of_app. right. by left.
    + by rewrite lookup_insert_ne.
Qed.




End ScoresOf.

Section Scoring.
Context {FAISS W : Type} (h : handler FAISS W).
Implicit Types (self : GroqCoverLetterGenerator) (w : W).

(** One pass of the loop of [calculate_match_scores]. *)
Lemma run_score_step (r : FAISS) req (scores : gmap string Q) w :
  let c := similarity_search_with_score r req 1%Z in
  run h (matches ← perform c;
         match matches with
         | m :: _ =>
             let score := ((1 - m.2) * 100)%Q in
             mret (<[Py.strip req := Py.round2 score]> scores)
         | [] => mret scores
         end) w
  = match (h _ c w).1 with
    | inl e => mkResult (inl e) (h _ c w).2 [Called c (inl e)]
    | inr matches =>
        mkResult (inr (record_score scores (req, matches))) (h _ c w).2
          [Called c (inr matches)]
    end.
Proof.
  intros c. rewrite run_perform_bind. fold c.
  destruct ((h _ c w).1) as [e|[|m ms]]; done.
Qed.

(** The loop over the requirement statements: either a search raised, or
    every statement was looked up and recorded. *)
Lemma run_score_loop (r : FAISS) reqs (scores : gmap string Q) w :
  let res :=
    run h (for_each reqs
             (λ req scores,
                matches ← perform (similarity_search_with_score r req 1%Z);
                match matches with
                | m :: _ =>
                    let score := ((1 - m.2) * 100)%Q in
                    mret (<[Py.strip req := Py.round2 score]> scores)
                | [] => mret scores
                end)
             scores) w in
  (∃ e req w', outcome res = inl e ∧
     (h _ (similarity_search_with_score r req 1%Z) w').1 = inl e) ∨
  (∃ found,
     found.*1 = reqs ∧
     outcome res = inr (fold_left record_score found scores) ∧
     trace res
     = (λ item, Called (similarity_search_with_score r item.1 1%Z)
                  (inr item.2)) <$> found ∧
     Forall (λ item,
               ∃ w', (h _ (similarity_search_with_score r item.1 1%Z) w').1
                     = inr item.2) found).
Proof.
  revert scores w.
  induction reqs as [|req reqs IH]; intros scores w res; subst res.
  - right. by exists [].
  - rewrite run_for_each_cons, run_score_step.
    destruct (h _ (similarity_search_with_score r req 1%Z) w)
      as [[e|ms] w1] eqn:Hcall; unfold and_then;
      cbn [fst snd outcome world trace].
    + left. exists e, req, w. by rewrite Hcall.
    + pose proof (IH (record_score scores (req, ms)) w1) as Hrest.
      cbv zeta in Hrest |- *.
      destruct Hrest as [(e & req' & w' & Hout & Hraise)
                        |(found & Hreqs & Hout & Htrace & Hanswered)].
      * left. exists e, req', w'. split; [|done]. by rewrite Hout.
      * right. exists ((req, ms) :: found). rewrite Hout, Htrace.
        subst reqs. split; [done|]. split; [done|]. split; [done|].
        constructor; [|done]. exists w. simpl. by rewrite Hcall.
Qed.

(** How [calculate_match_scores] runs. *)
Lemma run_calculate_match_scores self (r j : FAISS) w :
  let res := run h (calculate_match_scores self r j) w in
  let query := "What are the specific requirements and qualifications?" in
  (∃ e, outcome res = inl e ∧
     ((∃ w', (h _ (similarity_search j query 5%Z) w').1 = inl e) ∨
      (∃ req w',
         (h _ (similarity_search_with_score r req 1%Z) w').1 = inl e))) ∨
  (∃ documents found,
     outcome res = inr (scores_of found) ∧
     trace res
     = Called (similarity_search j query 5%Z) (inr documents)
       :: ((λ item, Called (similarity_search_with_score r item.1 1%Z)
                      (inr item.2)) <$> found) ∧
     found.*1 = text_splitter self (context_of documents) ∧
     Forall (λ item,
               ∃ w', (h _ (similarity_search_with_score r item.1 1%Z) w').1
                     = inr item.2) found).
Proof.
  intros res query. subst res. unfold calculate_match_scores.
  rewrite run_bind, run_get_relevant_context. fold query.
  change (default 3%Z (Some 5%Z)) with 5%Z.
  destruct (h _ (similarity_search j query 5%Z) w) as [[e|documents] w1]
    eqn:Hcall; unfold and_then; cbn [fst snd outcome world trace].
  - left. exists e. split; [done|]. left. exists w. by rewrite Hcall.
  - pose proof (run_score_loop r (text_splitter self (context_of documents))
                  ∅ w1) as Hloop.
    cbv zeta in Hloop |- *.
    destruct Hloop as [(e & req & w' & Hout & Hraise)
                      |(found & Hreqs & Hout & Htrace & Hanswered)].
    + left. exists e. split; [by rewrite Hout|]. right. by exists req, w'.
    + right. exists documents, found. by rewrite Hout, Htrace.
Qed.


(** C6: when every distance the scored searches report lies in [0, 1], every
    score [calculate_match_scores] returns lies in [0, 100].  The formula is
    not clamped: over the reference collaborators with an unbounded distance
    the method returns a score below 0. *)
Theorem match_scores_in_range self (r j : FAISS) w :
  (bounded_metric h →
   ∀ scores key score,
     outcome (run h (calculate_match_scores self r j) w) = inr scores →
     scores !! key = Some score →
     (0 <= score <= 100)%Q) ∧
  (∃ scores key score,
     outcome
       (run (Reference.collaborators Reference.raw_distance
               Reference.unreachable)
          (calculate_match_scores Reference.generator
             Reference.resume_index Reference.jd_index)
          Reference.empty_world)
     = inr scores ∧
     scores !! key = Some score ∧ (score < 0)%Q).
Proof.
  split.
  - intros Hmetric scores key score Hscores Hkey.
    pose proof (run_calculate_match_scores self r j w) as Hrun.
    cbv zeta in Hrun.
    destruct Hrun as [(e & Hout & _)
                     |(documents & found & Hout & _ & _ & Hanswered)];
      [congruence|].
    rewrite Hout in Hscores. injection Hscores as <-.
    apply scores_of_lookup_inv in Hkey as (req & m & ms & Hin & _ & ->).
    apply match_score_range.
    rewrite Forall_forall in Hanswered.
    destruct (Hanswered _ Hin) as [w' Hcall]. simpl in Hcall.
    pose proof (Hmetric r req 1%Z w' (m :: ms) Hcall) as Hbound.
    by apply Forall_cons in Hbound as [Hm _].
  - eexists _, ("experience with distributed systems" +:+ nl
                +:+ "Python, Go and Kubernetes"), _.
    split; [vm_compute; reflexivity|]. split; [vm_compute; reflexivity|].
    done.
Qed.

End Scoring.

Lemma reference_searches_answer distance chat :
  searches_answer (Reference.collaborators distance chat).
Proof. split; intros vs q k w; eexists; reflexivity. Qed.

Lemma unit_distance_bounded chat :
  bounded_metric (Reference.collaborators Reference.unit_distance chat).
Proof.
  intros vs q k w ms Hms. simpl in Hms. injection Hms as <-.
  unfold Reference.search_with_score. apply Forall_take.
  rewrite ranked_perm. unfold Reference.scored. apply Forall_fmap.
  apply Forall_forall. intros d _. simpl. unfold Reference.unit_distance.
  case_bool_decide; split; by unfold Qle.
Qed.


Lemma match_scores_in_range_witness : (0 <= 5000 # 100 <= 100)%Q.
Proof.
  pose proof
    (match_scores_in_range
       (Reference.collaborators Reference.unit_distance Reference.unreachable)
       Reference.generator Reference.resume_index Reference.jd_index
       Reference.empty_world) as [H _].
  apply (H (unit_distance_bounded _)
           {[ "experience with distributed systems" +:+ nl
              +:+ "Python, Go and Kubernetes" := (5000 # 100)%Q ]}
           ("experience with distributed systems" +:+ nl
            +:+ "Python, Go and Kubernetes")).
  - vm_compute. reflexivity.
  - vm_compute. reflexivity.
Defined.

(** * Further properties *)

(** ** The letter composer *)

Section Composer.
Context {FAISS W : Type} (h : handler FAISS W).
Implicit Types (self : GroqCoverLetterGenerator) (w : W).

Lemma getitem_total (d : gmap string string) key :
  key ∈ dom d → getitem (FAISS := FAISS) d key = Ret (d !!! key).
Proof.
  intros [v Hv]%elem_of_dom. unfold getitem. rewrite Hv.
  by rewrite (lookup_total_correct _ _ _ Hv).
Qed.

(** A bundle that extraction returns has the six labels. *)
Lemma extract_outcome_labels self (r j : FAISS) w info :
  outcome (run h (extract_key_information self r j) w) = inr info →
  dom info = topic_labels.
Proof.
  unfold extract_key_information. rewrite run_bind. unfold and_then.
  destruct (run_topics h self r
              ["technical_skills"; "soft_skills"; "experience"; "education"]
              ∅ w ltac:(repeat constructor; compute_done))
    as [(e & query & w' & Hout & _)|(ds & Hlen & Hout & _)];
    rewrite Hout; [done|]. cbn [outcome world trace].
  rewrite run_bind. unfold and_then.
  destruct ds as [|d1 [|d2 [|d3 [|d4 [|]]]]]; try discriminate Hlen.
  match goal with
  | |- context [run h (for_each ?keys ?body ?acc) ?w1] =>
      destruct (run_topics h self j
                  ["job_requirements"; "job_responsibilities"] acc w1
                  ltac:(repeat constructor; compute_done))
        as [(e & query & w' & Hout2 & _)|(ds & Hlen2 & Hout2 & _)]
  end; rewrite Hout2; [done|]. cbn [outcome world trace].
  destruct ds as [|d5 [|d6 [|]]]; try discriminate Hlen2.
  intros [= <-]. simpl.
  rewrite !dom_insert_L, dom_empty_L. unfold topic_labels. set_solver.
Qed.

(** How the body of the [try] runs once extraction has run. *)
Lemma run_generate_cover_letter_body self (r j : FAISS) hr_email w :
  let extraction := run h (extract_key_information self r j) w in
  run h (generate_cover_letter_body self r j hr_email) w
  = match outcome extraction with
    | inl e => mkResult (inl e) (world extraction) (trace extraction)
    | inr info =>
        let c := chat_completions_create (cover_letter_request info hr_email) in
        let answer := h _ c (world extraction) in
        match answer.1 with
        | inl e =>
            mkResult (inl e) answer.2 (trace extraction ++ [Called c (inl e)])
        | inr completion =>
            mkResult
              match choices completion with
              | choice :: _ => inr (message_content (message choice))
              | [] => inl (IndexError "list index out of range")
              end
              answer.2 (trace extraction ++ [Called c (inr completion)])
        end
    end.
Proof.
  intros extraction. unfold generate_cover_letter_body.
  rewrite run_bind. fold extraction. unfold and_then.
  destruct (outcome extraction) as [e|info] eqn:Hinfo; [done|].
  apply extract_outcome_labels in Hinfo.
  assert (Hkey : ∀ key, key ∈ topic_labels →
            getitem (FAISS := FAISS) info key = Ret (info !!! key)).
  { intros key Hkey. apply getitem_total. by rewrite Hinfo. }
  rewrite (Hkey "technical_skills"), run_ret_bind by compute_done.
  rewrite (Hkey "soft_skills"), run_ret_bind by compute_done.
  rewrite (Hkey "experience"), run_ret_bind by compute_done.
  rewrite (Hkey "education"), run_ret_bind by compute_done.
  rewrite (Hkey "job_requirements"), run_ret_bind by compute_done.
  rewrite (Hkey "job_responsibilities"), run_ret_bind by compute_done.
  cbv zeta. rewrite run_perform_bind.
  change (mkChatRequest _ _ _ _ _ _) with (cover_letter_request info hr_email).
  destruct ((h _ (chat_completions_create (cover_letter_request info hr_email))
               (world extraction)).1) as [e|completion]; [done|].
  unfold after. cbn [outcome world trace].
  by destruct (choices completion).
Qed.

(** How [generate_cover_letter] runs: the four ways it can end. *)
Lemma run_generate_cover_letter_cases self (r j : FAISS) hr_email w :
  let extraction := run h (extract_key_information self r j) w in
  let line (e : exn) : entry FAISS :=
    Printed ("Error generating cover letter: " +:+ exc_str e) in
  run h (generate_cover_letter self r j hr_email) w
  = match outcome extraction with
    | inl e =>
        mkResult (inr None) (world extraction) (trace extraction ++ [line e])
    | inr info =>
        let c := chat_completions_create (cover_letter_request info hr_email) in
        let answer := h _ c (world extraction) in
        match answer.1 with
        | inl e =>
            mkResult (inr None) answer.2
              (trace extraction ++ [Called c (inl e); line e])
        | inr completion =>
            match choices completion with
            | choice :: _ =>
                mkResult (inr (message_content (message choice))) answer.2
                  (trace extraction ++ [Called c (inr completion)])
            | [] =>
                mkResult (inr None) answer.2
                  (trace extraction
                   ++ [Called c (inr completion);
                       line (IndexError "list index out of range")])
            end
        end
    end.
Proof.
  intros extraction line.
  rewrite run_generate_cover_letter, run_generate_cover_letter_body.
  fold extraction. unfold or_else.
  destruct (outcome extraction) as [e|info]; [done|]. cbv zeta.
  destruct ((h _ (chat_completions_create (cover_letter_request info hr_email))
               (world extraction)).1) as [e|completion];
    cbn [outcome world trace].
  - by rewrite <- app_assoc.
  - destruct (choices completion); cbn [outcome world trace]; [|done].
    by rewrite <- app_assoc.
Qed.

Lemma filter_none {A} (P : A → Prop) `{∀ x, Decision (P x)} (l : list A) :
  Forall (λ x, ¬ P x) l → filter P l = [].
Proof.
  induction 1 as [|x l Hx Hl IH]; [done|].
  by rewrite filter_cons_False.
Qed.

Lemma searches_are_not_chat (t : list (entry FAISS)) :
  Forall (λ e, is_search e = true) t →
  Forall (λ e, is_chat e = false ∧ is_printed e = false) t.
Proof.
  intros Ht. eapply Forall_impl; [exact Ht|].
  intros [X c res|line]; [|done]. by destruct c.
Qed.

(** X1: when extraction returns a bundle and the generation service answers
    the request built from it with a completion that has a choice,
    [generate_cover_letter] returns the content of the first choice; it has
    called the service once, after the searches of the extraction, with the
    fixed model and sampling parameters, and has printed nothing. *)
Theorem generate_cover_letter_returns_first_choice
    self (r j : FAISS) hr_email w info w1 t completion w2 choice others :
  run h (extract_key_information self r j) w = mkResult (inr info) w1 t →
  h _ (chat_completions_create (cover_letter_request info hr_email)) w1
  = (inr completion, w2) →
  choices completion = choice :: others →
  run h (generate_cover_letter self r j hr_email) w
  = mkResult (inr (message_content (message choice))) w2
      (t ++ [Called (chat_completions_create
                       (cover_letter_request info hr_email))
               (inr completion)]).
Proof.
  intros Hextract Hchat Hchoices.
  rewrite run_generate_cover_letter_cases. cbv zeta.
  rewrite Hextract. cbn [outcome world trace].
  rewrite Hchat. cbn [fst snd]. by rewrite Hchoices.
Qed.

(** X2: when the generation service answers with a completion that has no
    choice, [generate_cover_letter] returns [None] and prints the error line
    of the index error. *)
Theorem generate_cover_letter_no_choices
    self (r j : FAISS) hr_email w info w1 t completion w2 :
  run h (extract_key_information self r j) w = mkResult (inr info) w1 t →
  h _ (chat_completions_create (cover_letter_request info hr_email)) w1
  = (inr completion, w2) →
  choices completion = [] →
  run h (generate_cover_letter self r j hr_email) w
  = mkResult (inr None) w2
      (t ++ [Called (chat_completions_create
                       (cover_letter_request info hr_email))
               (inr completion);
             Printed "Error generating cover letter: list index out of range"]).
Proof.
  intros Hextract Hchat Hchoices.
  rewrite run_generate_cover_letter_cases. cbv zeta.
  rewrite Hextract. cbn [outcome world trace].
  rewrite Hchat. cbn [fst snd]. by rewrite Hchoices.
Qed.

(** X3: a [None] result is not always a reported failure: when the first
    choice of the completion has no content, [generate_cover_letter] returns
    [None] and prints nothing. *)
Theorem generate_cover_letter_silent_none
    self (r j : FAISS) hr_email w info completion choice others :
  outcome (run h (extract_key_information self r j) w) = inr info →
  (h _ (chat_completions_create (cover_letter_request info hr_email))
     (world (run h (extract_key_information self r j) w))).1
  = inr completion →
  choices completion = choice :: others →
  message_content (message choice) = None →
  outcome (run h (generate_cover_letter self r j hr_email) w) = inr None ∧
  Forall (λ e, is_printed e = false)
    (trace (run h (generate_cover_letter self r j hr_email) w)).
Proof.
  intros Hinfo Hchat Hchoices Hcontent.
  rewrite run_generate_cover_letter_cases. cbv zeta.
  rewrite Hinfo, Hchat, Hchoices. cbn [outcome world trace].
  split; [by rewrite Hcontent|].
  apply Forall_app. split; [|by repeat constructor].
  eapply Forall_impl;
    [apply searches_are_not_chat, searches_extract_key_information|].
  by intros e [_ He].
Qed.

(** X4: when a search of the extraction raises, [generate_cover_letter] does
    not call the generation service: after the searches made so far it only
    prints the error line, and it returns [None]. *)
Theorem generate_cover_letter_skips_generation
    self (r j : FAISS) hr_email w e :
  let extraction := run h (extract_key_information self r j) w in
  let res := run h (generate_cover_letter self r j hr_email) w in
  outcome extraction = inl e →
  res = mkResult (inr None) (world extraction)
          (trace extraction
           ++ [Printed ("Error generating cover letter: " +:+ exc_str e)]) ∧
  Forall (λ en, is_chat en = false) (trace res).
Proof.
  intros extraction res Hfail. subst res.
  rewrite run_generate_cover_letter_cases. cbv zeta. fold extraction.
  rewrite Hfail. split; [done|]. cbn [trace].
  apply Forall_app. split; [|by repeat constructor].
  eapply Forall_impl;
    [apply searches_are_not_chat, searches_extract_key_information|].
  by intros en [He _].
Qed.

(** X5: whatever the collaborators do, [generate_cover_letter] calls the
    generation service at most once and prints at most one line: it neither
    retries nor reports twice. *)
Theorem generate_cover_letter_calls_once self (r j : FAISS) hr_email w :
  let t := trace (run h (generate_cover_letter self r j hr_email) w) in
  length (filter (λ e, is_chat e = true) t) ≤ 1 ∧
  length (filter (λ e, is_printed e = true) t) ≤ 1.
Proof.
  intros t. subst t.
  assert (Hquiet : ∀ t : list (entry FAISS),
            Forall (λ e, is_search e = true) t →
            filter (λ e, is_chat e = true) t = [] ∧
            filter (λ e, is_printed e = true) t = []).
  { intros t Ht. apply searches_are_not_chat in Ht.
    split; apply filter_none; (eapply Forall_impl; [exact Ht|]);
      intros e [Hc Hp]; congruence. }
  destruct (Hquiet _ (searches_extract_key_information h self r j w))
    as [Hchat Hprint].
  rewrite run_generate_cover_letter_cases. cbv zeta.
  destruct (outcome (run h (extract_key_information self r j) w))
    as [e|info]; cbn [trace].
  - rewrite !filter_app, Hchat, Hprint. simpl. lia.
  - destruct ((h _ (chat_completions_create
                      (cover_letter_request info hr_email))
                 (world (run h (extract_key_information self r j) w))).1)
      as [e|completion]; cbn [trace].
    + rewrite !filter_app, Hchat, Hprint. simpl. lia.
    + destruct (choices completion); cbn [trace];
        rewrite !filter_app, Hchat, Hprint; simpl; lia.
Qed.

End Composer.

Lemma generate_cover_letter_returns_first_choice_witness :
  outcome
    (run (Reference.collaborators Reference.unit_distance
            (Reference.reply "Dear team"))
       (generate_cover_letter Reference.generator
          Reference.resume_index Reference.jd_index "hr@example.org")
       Reference.empty_world)
  = inr (Some "Dear team").
Proof.
  set (h := Reference.collaborators Reference.unit_distance
               (Reference.reply "Dear team")).
  pose (extraction :=
          run h (extract_key_information Reference.generator
                   Reference.resume_index Reference.jd_index)
            Reference.empty_world).
  rewrite (generate_cover_letter_returns_first_choice h
             Reference.generator Reference.resume_index Reference.jd_index
             "hr@example.org" Reference.empty_world
             (match outcome extraction with inr info => info | inl _ => ∅ end)
             (world extraction) (trace extraction)
             (mkChatCompletion
                [mkChoice (mkChatCompletionMessage (Some "Dear team"))])
             Reference.empty_world
             (mkChoice (mkChatCompletionMessage (Some "Dear team"))) []).
  - reflexivity.
  - vm_compute. reflexivity.
  - vm_compute. reflexivity.
  - reflexivity.
Defined.

Lemma generate_cover_letter_no_choices_witness :
  outcome
    (run (Reference.collaborators Reference.unit_distance no_choices)
       (generate_cover_letter Reference.generator
          Reference.resume_index Reference.jd_index "hr@example.org")
       Reference.empty_world)
  = inr None.
Proof.
  set (h := Reference.collaborators Reference.unit_distance no_choices).
  pose (extraction :=
          run h (extract_key_information Reference.generator
                   Reference.resume_index Reference.jd_index)
            Reference.empty_world).
  rewrite (generate_cover_letter_no_choices h
             Reference.generator Reference.resume_index Reference.jd_index
             "hr@example.org" Reference.empty_world
             (match outcome extraction with inr info => info | inl _ => ∅ end)
             (world extraction) (trace extraction)
             (mkChatCompletion []) Reference.empty_world).
  - reflexivity.
  - vm_compute. reflexivity.
  - vm_compute. reflexivity.
  - reflexivity.
Defined.

Lemma generate_cover_letter_silent_none_witness :
  outcome
    (run (Reference.collaborators Reference.unit_distance no_content)
       (generate_cover_letter Reference.generator
          Reference.resume_index Reference.jd_index "hr@example.org")
       Reference.empty_world)
  = inr None.
Proof.
  set (h := Reference.collaborators Reference.unit_distance no_content).
  pose (extraction :=
          run h (extract_key_information Reference.generator
                   Reference.resume_index Reference.jd_index)
            Reference.empty_world).
  apply (generate_cover_letter_silent_none h
           Reference.generator Reference.resume_index Reference.jd_index
           "hr@example.org" Reference.empty_world
           (match outcome extraction with inr info => info | inl _ => ∅ end)
           (mkChatCompletion [mkChoice (mkChatCompletionMessage None)])
           (mkChoice (mkChatCompletionMessage None)) []).
  - vm_compute. reflexivity.
  - vm_compute. reflexivity.
  - reflexivity.
  - reflexivity.
Defined.

Lemma generate_cover_letter_skips_generation_witness :
  Forall (λ en, is_chat en = false)
    (trace
       (run (Reference.failing_on
               "What are the candidate's most relevant work experiences, projects, and achievements?"
               (Exception "RuntimeError" "encode failed")
               Reference.unit_distance (Reference.reply "Dear team"))
          (generate_cover_letter Reference.generator
             Reference.resume_index Reference.jd_index "hr@example.org")
          Reference.empty_world)).
Proof.
  apply (generate_cover_letter_skips_generation
           (Reference.failing_on
              "What are the candidate's most relevant work experiences, projects, and achievements?"
              (Exception "RuntimeError" "encode failed")
              Reference.unit_distance (Reference.reply "Dear team"))
           Reference.generator Reference.resume_index Reference.jd_index
           "hr@example.org" Reference.empty_world
           (Exception "RuntimeError" "encode failed")).
  vm_compute. reflexivity.
Defined.

(** ** The index store, further *)

Section IndexStoreMore.
Context {FAISS W : Type} (h : handler FAISS W).
Implicit Types (self : GroqCoverLetterGenerator) (w : W).

Ltac unfold_create :=
  unfold create_vector_store, print, perform,
    mbind, prog_bind, mret, prog_ret.

Ltac reply H :=
  cbn -[Py.os_path_join String.append]; rewrite H;
  cbn -[Py.os_path_join String.append].

(** X6: the [try] of [load_or_create_vector_store] guards the load only.  When
    nothing exists at the store path and building the index raises, the
    exception reaches the caller before any directory is made or anything is
    saved; when saving raises, it reaches the caller after the directory was
    made. *)
Theorem build_failure_propagates self text store_name w :
  let store_path := Py.os_path_join (vector_store_path self) store_name in
  let documents := mkDocument <$> text_splitter self text in
  (∀ w1 e w2,
     h _ (os_path_exists store_path) w = (inr false, w1) →
     h _ (FAISS_from_documents documents) w1 = (inl e, w2) →
     run h (load_or_create_vector_store self text store_name) w
     = mkResult (inl e) w2
         [Called (os_path_exists store_path) (inr false);
          Called (FAISS_from_documents documents) (inl e)]) ∧
  (∀ w1 vs w2 w3 e w4,
     h _ (os_path_exists store_path) w = (inr false, w1) →
     h _ (FAISS_from_documents documents) w1 = (inr vs, w2) →
     h _ (os_makedirs (vector_store_path self)) w2 = (inr tt, w3) →
     h _ (save_local vs store_path) w3 = (inl e, w4) →
     run h (load_or_create_vector_store self text store_name) w
     = mkResult (inl e) w4
         [Called (os_path_exists store_path) (inr false);
          Called (FAISS_from_documents documents) (inr vs);
          Called (os_makedirs (vector_store_path self)) (inr tt);
          Called (save_local vs store_path) (inl e)]).
Proof.
  intros store_path documents. split.
  - intros w1 e w2 Hfound Hbuild.
    rewrite (run_load_not_found h self text store_name w w1 Hfound).
    fold store_path. unfold_create. fold documents. reply Hbuild. done.
  - intros w1 vs w2 w3 e w4 Hfound Hbuild Hdir Hsave.
    rewrite (run_load_not_found h self text store_name w w1 Hfound).
    fold store_path. unfold_create. fold documents.
    reply Hbuild. reply Hdir. reply Hsave. done.
Qed.

(** X7: a stored index that loads is returned whatever the text: with the
    same collaborators and world, two texts give the same run, in which
    nothing is split, built or written. *)
Theorem load_ignores_text self text text' store_name w w1 vs w2 :
  let store_path := Py.os_path_join (vector_store_path self) store_name in
  h _ (os_path_exists store_path) w = (inr true, w1) →
  h _ (FAISS_load_local store_path) w1 = (inr vs, w2) →
  run h (load_or_create_vector_store self text store_name) w
  = run h (load_or_create_vector_store self text' store_name) w ∧
  Forall (λ e, writes_storage e = false ∧ chunks_of e = [])
    (trace (run h (load_or_create_vector_store self text store_name) w)).
Proof.
  intros store_path Hfound Hload.
  rewrite (run_load_found h self text store_name w w1 vs w2 Hfound Hload).
  rewrite (run_load_found h self text' store_name w w1 vs w2 Hfound Hload).
  split; [done|]. by repeat constructor.
Qed.

(** X8: a store name that is an absolute path is used as it is: the index is
    looked for and saved at that path, outside the storage directory, which is
    made all the same. *)
Theorem absolute_store_name_escapes self text store_name w w1 vs w2 w3 w4 :
  let documents := mkDocument <$> text_splitter self text in
  Py.startswith store_name "/" = true →
  h _ (os_path_exists store_name) w = (inr false, w1) →
  h _ (FAISS_from_documents documents) w1 = (inr vs, w2) →
  h _ (os_makedirs (vector_store_path self)) w2 = (inr tt, w3) →
  h _ (save_local vs store_name) w3 = (inr tt, w4) →
  run h (load_or_create_vector_store self text store_name) w
  = mkResult (inr vs) w4
      [Called (os_path_exists store_name) (inr false);
       Called (FAISS_from_documents documents) (inr vs);
       Called (os_makedirs (vector_store_path self)) (inr tt);
       Called (save_local vs store_name) (inr tt)].
Proof.
  intros documents Habs Hfound Hbuild Hdir Hsave.
  assert (Hpath : Py.os_path_join (vector_store_path self) store_name
                  = store_name).
  { unfold Py.os_path_join. by rewrite Habs. }
  rewrite (run_load_not_found h self text store_name w w1);
    rewrite Hpath; [|done].
  by rewrite (run_create_vector_store h self text _ w1 vs w2 w3 w4).
Qed.

End IndexStoreMore.

Section ReferenceStoreMore.
Variable distance : string → string → Q.
Variable chat : ChatRequest → exn + ChatCompletion.
#[local] Abbreviation h := (Reference.collaborators distance chat).
Implicit Types self : GroqCoverLetterGenerator.

Lemma reference_exists (rw : Reference.World) path file :
  Reference.files rw !! path = Some file →
  h _ (os_path_exists path) rw = (inr true, rw).
Proof.
  intros Hfile. simpl. rewrite Hfile.
  by rewrite bool_decide_eq_true_2 by by eexists.
Qed.

Lemma reference_load (rw : Reference.World) path index :
  Reference.files rw !! path = Some (Reference.Saved index) →
  h _ (FAISS_load_local path) rw = (inr index, rw).
Proof. intros Hfile. simpl. unfold Reference.load. by rewrite Hfile. Qed.

Lemma reference_load_corrupt (rw : Reference.World) path :
  Reference.files rw !! path = Some Reference.Corrupt →
  h _ (FAISS_load_local path) rw
  = (inl (Exception "RuntimeError" "could not read the index"), rw).
Proof. intros Hfile. simpl. unfold Reference.load. by rewrite Hfile. Qed.

(** X9: over the reference collaborators the store is a read-through cache:
    after an index was built for a store name that had none, a second call for
    that name, with any text, finds and loads that index, returns it, builds
    and writes nothing and leaves the world as it is. *)
Theorem reference_round_trip self text text' store_name
    (rw : Reference.World) :
  let store_path := Py.os_path_join (vector_store_path self) store_name in
  let documents : list Document :=
    mkDocument <$> text_splitter self text in
  let built := run h (load_or_create_vector_store self text store_name) rw in
  let again :=
    run h (load_or_create_vector_store self text' store_name) (world built) in
  Reference.files rw !! store_path = None →
  store_path ∉ Reference.dirs rw →
  again
  = mkResult (inr documents) (world built)
      [Called (os_path_exists store_path) (inr true);
       Called (FAISS_load_local store_path) (inr documents)].
Proof.
  intros store_path documents built again Hfile Hdir.
  destruct (reference_build distance chat self text store_name rw Hfile Hdir)
    as (_ & Hsaved & _). fold built store_path documents in Hsaved.
  subst again.
  apply (run_load_found h self text' store_name (world built) (world built)
           documents (world built)).
  - by apply (reference_exists _ _ (Reference.Saved documents)).
  - by apply reference_load.
Qed.

(** X10: over the reference collaborators an index that cannot be read is
    replaced: the call prints the error line, builds the index from the text
    and saves it over the unreadable data, so that the index is on disk
    afterwards. *)
Theorem reference_corrupt_store_is_replaced self text store_name
    (rw : Reference.World) :
  let store_path := Py.os_path_join (vector_store_path self) store_name in
  let documents : list Document :=
    mkDocument <$> text_splitter self text in
  let res := run h (load_or_create_vector_store self text store_name) rw in
  Reference.files rw !! store_path = Some Reference.Corrupt →
  outcome res = inr documents ∧
  Reference.files (world res) !! store_path
  = Some (Reference.Saved documents) ∧
  trace res
  = [Called (os_path_exists store_path) (inr true);
     Called (FAISS_load_local store_path)
       (inl (Exception "RuntimeError" "could not read the index"));
     Printed "Error loading vector store: could not read the index";
     Called (FAISS_from_documents documents) (inr documents);
     Called (os_makedirs (vector_store_path self)) (inr tt);
     Called (save_local documents store_path) (inr tt)].
Proof.
  intros store_path documents res Hfile. subst res.
  rewrite (run_load_failed h self text store_name rw rw
             (Exception "RuntimeError" "could not read the index") rw).
  - fold store_path.
    erewrite run_create_vector_store by reflexivity.
    unfold after. cbn [outcome world trace]. fold documents.
    split; [done|]. split; [|done]. simpl. apply lookup_insert_eq.
  - by apply (reference_exists _ _ Reference.Corrupt).
  - by apply reference_load_corrupt.
Qed.

End ReferenceStoreMore.

Lemma build_failure_propagates_witness :
  outcome
    (run (refuses_empty Reference.unit_distance Reference.unreachable)
       (load_or_create_vector_store Reference.generator "" "resume")
       Reference.empty_world)
  = inl (IndexError "list index out of range").
Proof.
  pose proof
    (build_failure_propagates
       (refuses_empty Reference.unit_distance Reference.unreachable)
       Reference.generator "" "resume" Reference.empty_world) as H.
  cbv zeta in H. destruct H as [H _].
  rewrite (H Reference.empty_world (IndexError "list index out of range")
             Reference.empty_world).
  - reflexivity.
  - vm_compute. reflexivity.
  - vm_compute. reflexivity.
Defined.

Lemma load_ignores_text_witness :
  run (Reference.collaborators Reference.unit_distance Reference.unreachable)
    (load_or_create_vector_store Reference.generator "Python" "resume")
    (Reference.mkWorld ∅ {[ "vector_indices/resume" :=
                              Reference.Saved Reference.resume_index ]})
  = run (Reference.collaborators Reference.unit_distance Reference.unreachable)
      (load_or_create_vector_store Reference.generator "Cobol" "resume")
      (Reference.mkWorld ∅ {[ "vector_indices/resume" :=
                                Reference.Saved Reference.resume_index ]}).
Proof.
  apply (load_ignores_text
           (Reference.collaborators Reference.unit_distance
              Reference.unreachable)
           Reference.generator "Python" "Cobol" "resume"
           (Reference.mkWorld ∅ {[ "vector_indices/resume" :=
                                     Reference.Saved Reference.resume_index ]})
           (Reference.mkWorld ∅ {[ "vector_indices/resume" :=
                                     Reference.Saved Reference.resume_index ]})
           Reference.resume_index
           (Reference.mkWorld ∅ {[ "vector_indices/resume" :=
                                     Reference.Saved Reference.resume_index ]})).
  - vm_compute. reflexivity.
  - vm_compute. reflexivity.
Defined.

Lemma absolute_store_name_escapes_witness :
  Reference.files
    (world
       (run (Reference.collaborators Reference.unit_distance
               Reference.unreachable)
          (load_or_create_vector_store Reference.generator "Python"
             "/tmp/resume")
          Reference.empty_world))
  !! "/tmp/resume"
  = Some (Reference.Saved [mkDocument "Python"]).
Proof.
  erewrite (absolute_store_name_escapes
              (Reference.collaborators Reference.unit_distance
                 Reference.unreachable)
              Reference.generator "Python" "/tmp/resume"
              Reference.empty_world); cycle 1.
  - reflexivity.
  - reflexivity.
  - reflexivity.
  - reflexivity.
  - reflexivity.
  - vm_compute. reflexivity.
Defined.

Lemma reference_round_trip_witness :
  outcome
    (run (Reference.collaborators Reference.unit_distance Reference.unreachable)
       (load_or_create_vector_store Reference.generator "Cobol" "resume")
       (world
          (run (Reference.collaborators Reference.unit_distance
                  Reference.unreachable)
             (load_or_create_vector_store Reference.generator "Python" "resume")
             Reference.empty_world)))
  = inr [mkDocument "Python"].
Proof.
  rewrite (reference_round_trip Reference.unit_distance Reference.unreachable
             Reference.generator "Python" "Cobol" "resume"
             Reference.empty_world).
  - vm_compute. reflexivity.
  - vm_compute. reflexivity.
  - compute_done.
Defined.

Lemma reference_corrupt_store_is_replaced_witness :
  Reference.files
    (world
       (run (Reference.collaborators Reference.unit_distance
               Reference.unreachable)
          (load_or_create_vector_store Reference.generator "Python" "resume")
          Reference.corrupt_world))
  !! "vector_indices/resume"
  = Some (Reference.Saved [mkDocument "Python"]).
Proof.
  apply (reference_corrupt_store_is_replaced
           Reference.unit_distance Reference.unreachable
           Reference.generator "Python" "resume" Reference.corrupt_world).
  vm_compute. reflexivity.
Defined.

(** ** Match scores, further *)

Section ScoreFormula.

(** Rounding keeps the order. *)
Lemma round_half_even_mono (x y : Q) :
  (x <= y)%Q → (Py.round_half_even x ≤ Py.round_half_even y)%Z.
Proof.
  destruct x as [n1 d1], y as [n2 d2]. unfold Qle, Py.round_half_even. simpl.
  intros Hle.
  pose proof (Z.div_mod n1 (Z.pos d1) ltac:(lia)) as Hdiv1.
  pose proof (Z.mod_pos_bound n1 (Z.pos d1) ltac:(lia)) as Hmod1.
  pose proof (Z.div_mod n2 (Z.pos d2) ltac:(lia)) as Hdiv2.
  pose proof (Z.mod_pos_bound n2 (Z.pos d2) ltac:(lia)) as Hmod2.
  set (f1 := (n1 / Z.pos d1)%Z) in *. set (r1 := (n1 mod Z.pos d1)%Z) in *.
  set (f2 := (n2 / Z.pos d2)%Z) in *. set (r2 := (n2 mod Z.pos d2)%Z) in *.
  set (a := Z.pos d1) in *. set (b := Z.pos d2) in *.
  assert (Ha : (0 < a)%Z) by (subst a; lia).
  assert (Hb : (0 < b)%Z) by (subst b; lia).
  clearbody a b f1 f2 r1 r2.
  assert (Hfloor : (f1 ≤ f2)%Z).
  { destruct (Z.le_gt_cases f1 f2) as [|Hgt]; [done|exfalso].
    assert (a * (f2 + 1) ≤ a * f1)%Z by (apply Z.mul_le_mono_nonneg_l; lia).
    assert (a * (f2 + 1) * b ≤ n1 * b)%Z
      by (apply Z.mul_le_mono_nonneg_r; lia).
    assert (n2 * a < a * (f2 + 1) * b)%Z; [|lia].
    replace (a * (f2 + 1) * b)%Z with ((b * f2 + b) * a)%Z by ring.
    apply Z.mul_lt_mono_pos_r; lia. }
  destruct (Z.eq_dec f1 f2) as [Heq|Hne].
  - assert (Hfrac : (r1 * b ≤ r2 * a)%Z).
    { subst f2 n1 n2.
      replace ((a * f1 + r1) * b)%Z with (a * b * f1 + r1 * b)%Z in Hle by ring.
      replace ((b * f1 + r2) * a)%Z with (a * b * f1 + r2 * a)%Z in Hle by ring.
      lia. }
    rewrite <- Heq.
    assert (Hup : (a ≤ 2 * r1 → b ≤ 2 * r2)%Z).
    { intros Hr1.
      assert (a * b ≤ 2 * r1 * b)%Z by (apply Z.mul_le_mono_nonneg_r; lia).
      assert (a * b ≤ (2 * r2) * a)%Z by lia.
      apply (Z.mul_le_mono_pos_r _ _ a); lia. }
    assert (Hup' : (a < 2 * r1 → b < 2 * r2)%Z).
    { intros Hr1.
      assert (a * b < 2 * r1 * b)%Z by (apply Z.mul_lt_mono_pos_r; lia).
      assert (a * b < (2 * r2) * a)%Z by lia.
      apply (Z.mul_lt_mono_pos_r a); lia. }
    destruct (Z.compare_spec (2 * r1) a) as [Hc1|Hc1|Hc1];
      destruct (Z.compare_spec (2 * r2) b) as [Hc2|Hc2|Hc2];
      destruct (Z.even f1); lia.
  - assert (f1 + 1 ≤ f2)%Z by lia.
    destruct (2 * r1 ?= a)%Z; destruct (2 * r2 ?= b)%Z;
      destruct (Z.even f1); destruct (Z.even f2); lia.
Qed.


(** X11: the score never grows with the distance: of two chunks, the one that
    is nearer to the requirement gets at least the score of the other. *)
Theorem match_score_antitone (d1 d2 : Q) :
  (d1 <= d2)%Q → (match_score d2 <= match_score d1)%Q.
Proof.
  intros Hle. unfold match_score, Py.round2.
  assert (Hround :
    (Py.round_half_even ((1 - d2) * 100 * 100)
     ≤ Py.round_half_even ((1 - d1) * 100 * 100))%Z).
  { apply round_half_even_mono.
    repeat apply Qmult_le_compat_r; try done.
    apply Qplus_le_r, Qopp_le_compat, Hle. }
  unfold Qle. simpl. lia.
Qed.


(** X13: nothing clamps the score: a distance of 1 or more gives a score of 0
    or less, and a distance of 0 or less gives a score of 100 or more. *)
Theorem match_score_outside_unit_interval (d : Q) :
  ((1 <= d)%Q → (match_score d <= 0)%Q) ∧
  ((d <= 0)%Q → (100 <= match_score d)%Q).
Proof.
  split; intros Hd.
  - apply (Qle_trans _ (match_score 1)); [by apply match_score_antitone|done].
  - apply (Qle_trans _ (match_score 0)); [done|by apply match_score_antitone].
Qed.

End ScoreFormula.

Lemma match_score_antitone_witness :
  (match_score (3 # 4) <= match_score (1 # 4))%Q.
Proof. apply match_score_antitone. done. Defined.

Section ScoringMore.
Context {FAISS W : Type} (h : handler FAISS W).
Implicit Types (self : GroqCoverLetterGenerator) (w : W).

Lemma scores_of_no_match (found : list (string * list (Document * Q))) :
  Forall (λ item, item.2 = []) found → scores_of found = ∅.
Proof.
  induction found as [|[req ms] found IH] using rev_ind; intros Hnone.
  - done.
  - apply Forall_app in Hnone as [Hfound Hlast].
    apply Forall_cons in Hlast as [Hms _]. simpl in Hms. subst ms.
    rewrite scores_of_snoc. unfold record_score. simpl. by apply IH.
Qed.

Lemma scores_of_size (found : list (string * list (Document * Q))) :
  size (scores_of found) ≤ length found.
Proof.
  induction found as [|[req ms] found IH] using rev_ind.
  - unfold scores_of. simpl. by rewrite map_size_empty.
  - rewrite scores_of_snoc, List.length_app. unfold record_score. simpl.
    destruct ms as [|m ms]; [lia|].
    destruct (scores_of found !! Py.strip req) as [old|] eqn:Hold.
    + rewrite map_size_insert_Some by by eexists. lia.
    + rewrite map_size_insert_None by done. lia.
Qed.

(** X14: when the searches answer and the resume store has no match for any
    requirement statement, as an index without chunks has, the mapping
    [calculate_match_scores] returns is empty: no statement is scored 0. *)
Theorem no_match_gives_no_scores self (r j : FAISS) w :
  searches_answer h →
  (∀ req k w' ms,
     (h _ (similarity_search_with_score r req k) w').1 = inr ms → ms = []) →
  outcome (run h (calculate_match_scores self r j) w) = inr ∅.
Proof.
  intros [Hs Hsw] Hnone.
  pose proof (run_calculate_match_scores h self r j w) as Hrun.
  cbv zeta in Hrun.
  destruct Hrun as [(e & _ & [[w' Hraise]|(req & w' & Hraise)])
                   |(documents & found & Hout & _ & _ & Hanswered)].
  - destruct (Hs j "What are the specific requirements and qualifications?"
                5%Z w') as [docs Hdocs]. congruence.
  - destruct (Hsw r req 1%Z w') as [ms Hms]. congruence.
  - rewrite Hout. f_equal. apply scores_of_no_match.
    eapply Forall_impl; [exact Hanswered|].
    intros [req ms] [w' Hcall]. simpl in *. by apply (Hnone req 1%Z w').
Qed.

(** X15: [calculate_match_scores] returns at most one score per requirement
    statement it looks up: the mapping has fewer keys than the run has
    searches, the first search being the one for the requirements. *)
Theorem at_most_one_score_per_statement self (r j : FAISS) w scores :
  outcome (run h (calculate_match_scores self r j) w) = inr scores →
  size scores < length (trace (run h (calculate_match_scores self r j) w)).
Proof.
  intros Hscores.
  pose proof (run_calculate_match_scores h self r j w) as Hrun.
  cbv zeta in Hrun.
  destruct Hrun as [(e & Hout & _)|(documents & found & Hout & Htrace & _)];
    [congruence|].
  rewrite Hout in Hscores. injection Hscores as <-.
  rewrite Htrace. simpl. rewrite length_fmap.
  pose proof (scores_of_size found). lia.
Qed.

(** X16: with the splitter a generator is built with, a retrieval that
    returns no job-description chunk leaves nothing to score:
    [calculate_match_scores] returns the empty mapping and never searches the
    resume store. *)
Theorem empty_requirements_give_no_scores
    groq_api_key vector_store_path (r j : FAISS) w w1 :
  let self := __init__ groq_api_key vector_store_path in
  let c :=
    similarity_search j
      "What are the specific requirements and qualifications?" 5%Z in
  h _ c w = (inr [], w1) →
  run h (calculate_match_scores self r j) w
  = mkResult (inr ∅) w1 [Called c (inr [])].
Proof.
  intros self c Hcall. unfold calculate_match_scores.
  rewrite run_bind, run_get_relevant_context.
  change (default 3%Z (Some 5%Z)) with 5%Z. fold c. rewrite Hcall.
  unfold and_then. cbn [fst snd outcome world trace].
  change (text_splitter self (context_of [])) with (@nil string).
  done.
Qed.

End ScoringMore.

Lemma no_match_gives_no_scores_witness :
  outcome
    (run (Reference.collaborators Reference.unit_distance Reference.unreachable)
       (calculate_match_scores Reference.generator [] Reference.jd_index)
       Reference.empty_world)
  = inr ∅.
Proof.
  apply no_match_gives_no_scores.
  - apply reference_searches_answer.
  - intros req k w' ms Hms. simpl in Hms. injection Hms as <-.
    unfold Reference.search_with_score.
    change (Reference.ranked Reference.unit_distance [] req)
      with (@nil (Document * Q)).
    apply take_nil.
Defined.

Lemma at_most_one_score_per_statement_witness :
  size ({[ "experience with distributed systems" +:+ nl
           +:+ "Python, Go and Kubernetes" := (5000 # 100)%Q ]}
        : gmap string Q)
  < length
      (trace
         (run (Reference.collaborators Reference.unit_distance
                 Reference.unreachable)
            (calculate_match_scores Reference.generator
               Reference.resume_index Reference.jd_index)
            Reference.empty_world)).
Proof.
  apply at_most_one_score_per_statement.
  vm_compute. reflexivity.
Defined.

Lemma empty_requirements_give_no_scores_witness :
  outcome
    (run (Reference.collaborators Reference.unit_distance Reference.unreachable)
       (calculate_match_scores (__init__ "gsk_key" None)
          Reference.resume_index [])
       Reference.empty_world)
  = inr ∅.
Proof.
  rewrite (empty_requirements_give_no_scores
             (Reference.collaborators Reference.unit_distance
                Reference.unreachable)
             "gsk_key" None Reference.resume_index [] Reference.empty_world
             Reference.empty_world).
  - reflexivity.
  - vm_compute. reflexivity.
Defined.
